(** * Emoji shortener backend: slug allocation and resolution

    A shallow embedding of the two source variants of the service, the
    complete one ([src/unnamed/part_000], with the [POST /newURL] route) and
    the earlier [src/api.js], together with the parts of its dependencies
    that the handlers call: [punycode.encode], the [urls] collection with its
    unique index on [emojis], and the [yup] record schema.  Line numbers are
    those of the complete variant unless [src/api.js] is named. *)

From Stdlib Require Import ZArith String Ascii List Bool Lia Permutation.
From Equations Require Import Equations.
Import ListNotations.
Open Scope Z_scope.

(** ** JavaScript values

    A JavaScript string is a sequence of UTF-16 code units.  The fields of a
    request body that the handlers read are either absent ([undefined]) or
    strings; [keyExists] additionally produces booleans. *)

Definition jsstring := list Z.

Inductive value : Type :=
| undefined
| boolean (b : bool)
| str (s : jsstring).

(** [ToBoolean] of the language: [undefined], [false] and the empty string
    are falsy. *)
Definition truthy (v : value) : bool :=
  match v with
  | undefined => false
  | boolean b => b
  | str [] => false
  | str (_ :: _) => true
  end.

(** The code units of an ASCII literal. *)
Fixpoint u16 (s : string) : jsstring :=
  match s with
  | EmptyString => []
  | String c s' => Z.of_nat (nat_of_ascii c) :: u16 s'
  end.

(** Error objects: [name], the [status] property the error middleware looks
    at ([None] when the object has none), and [message]. *)
Record jserror := mkError {
  err_name : string;
  err_status : option Z;
  err_message : string
}.

(** ** punycode.encode

    The source requires the [punycode] package (line 6) and calls its
    [encode] on the slug.  The package is not part of the repository; the
    definitions below transcribe its [ucs2decode], [digitToBasic], [adapt]
    and [encode] (the Bootstring encoder of RFC 3492), with the names of the
    package. *)
Module punycode.

Definition maxInt : Z := 2147483647.
Definition base : Z := 36.
Definition tMin : Z := 1.
Definition tMax : Z := 26.
Definition skew : Z := 38.
Definition damp : Z := 700.
Definition initialBias : Z := 72.
Definition initialN : Z := 128.
Definition delimiter : Z := 45.
Definition baseMinusTMin : Z := base - tMin.

Definition RangeError_overflow : jserror :=
  mkError "RangeError" None "Overflow: input needs wider integers to process".

(** [ucs2decode]: code units to code points; a high surrogate followed by a
    low surrogate is one code point, an unmatched surrogate stands for
    itself. *)
Fixpoint ucs2decode (s : jsstring) : list Z :=
  match s with
  | [] => []
  | value :: rest =>
      if (0xD800 <=? value) && (value <=? 0xDBFF) then
        match rest with
        | [] => [value]
        | extra :: rest' =>
            if Z.land extra 0xFC00 =? 0xDC00 then
              (Z.shiftl (Z.land value 0x3FF) 10 + Z.land extra 0x3FF + 0x10000)
                :: ucs2decode rest'
            else value :: ucs2decode rest
        end
      else value :: ucs2decode rest
  end.

(** [digitToBasic(digit, 0)]: 0..25 are [a]..[z], 26..35 are [0]..[9]. *)
Definition digitToBasic (digit : Z) : Z :=
  digit + 22 + 75 * (if digit <? 26 then 1 else 0).

(** The [for] loop of [adapt]:
    [for (; delta > baseMinusTMin * tMax >> 1; k += base) delta = floor(delta / baseMinusTMin)]. *)
Equations? adapt_loop (delta k : Z) : Z * Z by wf (Z.to_nat delta) lt :=
  adapt_loop delta k with Z_gt_dec delta (Z.shiftr (baseMinusTMin * tMax) 1) => {
    | left _ := adapt_loop (delta / baseMinusTMin) (k + base);
    | right _ := (delta, k) }.
Proof.
  assert (Hgt : delta > 455) by assumption.
  change baseMinusTMin with 35.
  apply Z2Nat.inj_lt; try lia.
  - apply Z.div_pos; lia.
  - apply Z.div_lt; lia.
Qed.

Definition adapt (delta numPoints : Z) (firstTime : bool) : Z :=
  let delta := if firstTime then delta / damp else Z.shiftr delta 1 in
  let delta := delta + delta / numPoints in
  let '(delta, k) := adapt_loop delta 0 in
  k + (baseMinusTMin + 1) * delta / (delta + skew).

(** The threshold of digit position [k]. *)
Definition threshold (k bias : Z) : Z :=
  if k <=? bias then tMin else if k >=? bias + tMax then tMax else k - bias.

(** The generalized variable-length integer: the inner [for (k = base; ; k += base)]
    loop and the push of the last digit. *)
Equations? varint (q k bias : Z) : list Z by wf (Z.to_nat q) lt :=
  varint q k bias with Z_lt_dec q (threshold k bias) => {
    | left _ := [digitToBasic q];
    | right _ :=
        let t := threshold k bias in
        let qMinusT := q - t in
        let baseMinusT := base - t in
        digitToBasic (t + qMinusT mod baseMinusT)
          :: varint (qMinusT / baseMinusT) (k + base) bias }.
Proof.
  assert (Ht : 1 <= threshold k bias <= 26).
  { unfold threshold, tMin, tMax.
    destruct (Z.leb_spec k bias); [lia|].
    destruct (Z.geb_spec k (bias + 26)); lia. }
  change (Z.to_nat ((q - threshold k bias) / (36 - threshold k bias))
          < Z.to_nat q)%nat.
  match goal with H : ~ q < threshold k bias |- _ => revert Ht H end.
  generalize (threshold k bias) as th. intros th Ht Hq.
  assert (0 <= (q - th) / (36 - th) <= q - th).
  { split; [apply Z.div_pos; lia|].
    apply Z.div_le_upper_bound; nia. }
  apply Z2Nat.inj_lt; lia.
Qed.

(** The state of the main loop. *)
Record state := mkState {
  n : Z;
  delta : Z;
  bias : Z;
  handledCPCount : Z;
  output : list Z
}.

(** The second [for (const currentValue of input)] of an iteration of the
    main loop; [None] is the thrown overflow error. *)
Fixpoint encode_pass (basicLength : Z) (input : list Z) (s : state) : option state :=
  match input with
  | [] => Some s
  | currentValue :: input' =>
      let delta1 := if currentValue <? n s then delta s + 1 else delta s in
      if (currentValue <? n s) && (delta1 >? maxInt) then None
      else if currentValue =? n s then
        let out := output s ++ varint delta1 base (bias s) in
        let handledCPCountPlusOne := handledCPCount s + 1 in
        let bias' := adapt delta1 handledCPCountPlusOne
                       (handledCPCount s =? basicLength) in
        encode_pass basicLength input'
          (mkState (n s) 0 bias' (handledCPCount s + 1) out)
      else
        encode_pass basicLength input'
          (mkState (n s) delta1 (bias s) (handledCPCount s) (output s))
  end.

(** The first [for] of an iteration: the smallest code point [>= n]. *)
Definition next_m (n : Z) (input : list Z) : Z :=
  fold_left (fun m currentValue =>
               if (currentValue >=? n) && (currentValue <? m)
               then currentValue else m) input maxInt.

(** [while (handledCPCount < inputLength)].  Every iteration handles at
    least one code point, so [fuel] is bounded by the number of code points
    (see [encode_fuel_adequate]). *)
Fixpoint encode_loop (fuel : nat) (basicLength : Z) (input : list Z) (s : state)
  : jserror + list Z :=
  if handledCPCount s <? Z.of_nat (length input) then
    match fuel with
    | O => inr (output s)
    | S fuel' =>
        let m := next_m (n s) input in
        let handledCPCountPlusOne := handledCPCount s + 1 in
        if m - n s >? (maxInt - delta s) / handledCPCountPlusOne
        then inl RangeError_overflow
        else
          let s1 := mkState m (delta s + (m - n s) * handledCPCountPlusOne)
                      (bias s) (handledCPCount s) (output s) in
          match encode_pass basicLength input s1 with
          | None => inl RangeError_overflow
          | Some s2 =>
              encode_loop fuel' basicLength input
                (mkState (n s2 + 1) (delta s2 + 1) (bias s2)
                   (handledCPCount s2) (output s2))
          end
    end
  else inr (output s).

Definition encode (input : jsstring) : jserror + jsstring :=
  let input := ucs2decode input in
  let basic := filter (fun c => c <? 0x80) input in
  let basicLength := Z.of_nat (length basic) in
  let output := if 0 <? basicLength then basic ++ [delimiter] else basic in
  encode_loop (length input) basicLength input
    (mkState initialN 0 initialBias basicLength output).

(** What an iteration of the main loop keeps: the code points below [n] are
    the handled ones, [delta] is not negative, and the output is basic. *)
Definition loop_inv (input : list Z) (s : state) : Prop :=
  handledCPCount s = Z.of_nat (length (filter (fun c => c <? n s) input))
  /\ 0 <= delta s
  /\ Forall (fun c => 0 <= c < 128) (output s).

End punycode.

(** ** Values, objects and responses *)

Definition value_eq_dec (a b : value) : {a = b} + {a <> b}.
Proof. decide equality; [apply bool_dec | apply (list_eq_dec Z.eq_dec)]. Defined.

(** [a === b]. *)
Definition strict_eq (a b : value) : bool :=
  if value_eq_dec a b then true else false.

(** [ToString], as a template literal applies it. *)
Definition ToString (v : value) : jsstring :=
  match v with
  | undefined => u16 "undefined"
  | boolean true => u16 "true"
  | boolean false => u16 "false"
  | str s => s
  end.

(** An object literal: its own properties in order; reading an absent
    property gives [undefined]. *)
Definition obj := list (string * value).

Fixpoint get (name : string) (o : obj) : value :=
  match o with
  | [] => undefined
  | (k, v) :: o' => if String.eqb k name then v else get name o'
  end.

(** A document of the [urls] collection, with the fields the handler gives
    it ([let newURL = { emojis: encodedEmojis, url: url, raw: emojis }]); the
    [_id] the driver adds is not represented. *)
Record doc := mkDoc {
  emojis : value;
  url : value;
  raw : value
}.

(** What a handler sends: the status ([200] unless [res.status] was called)
    and the payload. *)
Inductive payload : Type :=
| JsonRecords (records : list doc)
| JsonURL (emojiURL redirectURL : value)
| JsonCreated (port : Z) (domain : jsstring) (created : doc)
| JsonError (message : string) (req : obj)
| Text (text : string).

Record response := mkResponse {
  status : Z;
  body : payload
}.

(** ** The [urls] collection with its unique index

    [urls.createIndex({ emojis: 1 }, { unique: true })]: the collection is the
    list of its documents in insertion order, and an insert whose [emojis]
    equals that of a stored document is rejected with the duplicate key
    error of the driver, which has a code and no [status]; of its message,
    the database name and the key are left out. *)
Definition collection := list doc.

Definition has_key (key : value) (d : doc) : bool := strict_eq (emojis d) key.

Definition E11000 : jserror :=
  mkError "MongoError" None "E11000 duplicate key error collection: urls index: emojis_1".

Definition findOne (key : value) (urls : collection) : option doc :=
  find (has_key key) urls.

Definition insert (d : doc) (urls : collection) : jserror + collection :=
  if existsb (has_key (emojis d)) urls then inl E11000 else inr (urls ++ [d]).

(** ** Programs

    A handler is a tree of the operations it awaits: a draw of
    [nodeEmoji.random().emoji], a query or an insert on [urls].  [Throw] is a
    thrown error (a rejected promise), and [Spin] stands for a [do ... while]
    loop that is still running when the bound of the model is reached. *)
Inductive prog (A : Type) : Type :=
| Ret (a : A)
| Throw (e : jserror)
| Spin
| Random (k : jsstring -> prog A)
| FindOne (key : value) (k : option doc -> prog A)
| Find (k : collection -> prog A)
| Insert (d : doc) (k : jserror + doc -> prog A).

Arguments Ret {A} a.
Arguments Throw {A} e.
Arguments Spin {A}.
Arguments Random {A} k.
Arguments FindOne {A} key k.
Arguments Find {A} k.
Arguments Insert {A} d k.

Fixpoint bind {A B} (p : prog A) (f : A -> prog B) : prog B :=
  match p with
  | Ret a => f a
  | Throw e => Throw e
  | Spin => Spin
  | Random k => Random (fun e => bind (k e) f)
  | FindOne key k => FindOne key (fun r => bind (k r) f)
  | Find k => Find (fun r => bind (k r) f)
  | Insert d k => Insert d (fun r => bind (k r) f)
  end.

(** [try { p } catch (error) { h error }]. *)
Fixpoint try_catch {A} (p : prog A) (h : jserror -> prog A) : prog A :=
  match p with
  | Ret a => Ret a
  | Throw e => h e
  | Spin => Spin
  | Random k => Random (fun e => try_catch (k e) h)
  | FindOne key k => FindOne key (fun r => try_catch (k r) h)
  | Find k => Find (fun r => try_catch (k r) h)
  | Insert d k => Insert d (fun r => try_catch (k r) h)
  end.

Declare Scope prog_scope.
Delimit Scope prog_scope with prog.
Notation "x <- p ;; q" := (bind p (fun x => q))
  (at level 61, p at next level, right associativity) : prog_scope.
Notation "' pat <- p ;; q" := (bind p (fun x => match x with pat => q end))
  (at level 61, pat pattern, p at next level, right associativity) : prog_scope.
Open Scope prog_scope.

Definition lift {A} (r : jserror + A) : prog A :=
  match r with
  | inl e => Throw e
  | inr a => Ret a
  end.

(** [await urls.insert(d)]: the created document, or the rejection. *)
Definition urls_insert (d : doc) : prog doc := Insert d lift.

(** The state the operations act on: the collection and the number of draws
    made so far. *)
Record world := mkWorld {
  urls : collection;
  draws : nat
}.

Inductive outcome (A : Type) : Type :=
| Returned (a : A)
| Thrown (e : jserror)
| Spinning.

Arguments Returned {A} a.
Arguments Thrown {A} e.
Arguments Spinning {A}.

(** ** The service

    What the service takes from its environment: the random source (the
    [emoji] field of the [i]-th call of [nodeEmoji.random()]), the test of
    [yup]'s [string().url()] on a trimmed string, and the [PORT] and
    [DOMAIN] settings. *)
Section Service.

Variable rnd : nat -> jsstring.
Variable yup_url : jsstring -> bool.
Variable port : Z.
Variable domain : jsstring.

(** One awaited operation, carried out on the world. *)
Definition op_step {A} (p : prog A) (w : world) : option (prog A * world) :=
  match p with
  | Ret _ | Throw _ | Spin => None
  | Random k => Some (k (rnd (draws w)), mkWorld (urls w) (S (draws w)))
  | FindOne key k => Some (k (findOne key (urls w)), w)
  | Find k => Some (k (urls w), w)
  | Insert d k =>
      match insert d (urls w) with
      | inl e => Some (k (inl e), w)
      | inr urls' => Some (k (inr d), mkWorld urls' (draws w))
      end
  end.

(** A handler running alone, from its first operation to its end. *)
Fixpoint run {A} (p : prog A) (w : world) : outcome A * world :=
  match p with
  | Ret a => (Returned a, w)
  | Throw e => (Thrown e, w)
  | Spin => (Spinning, w)
  | Random k => run (k (rnd (draws w))) (mkWorld (urls w) (S (draws w)))
  | FindOne key k => run (k (findOne key (urls w))) w
  | Find k => run (k (urls w)) w
  | Insert d k =>
      match insert d (urls w) with
      | inl e => run (k (inl e)) w
      | inr urls' => run (k (inr d)) (mkWorld urls' (draws w))
      end
  end.

(** *** Helper functions (lines 50-82) *)

(** [String.prototype.trim]: white space and line terminators. *)
Definition is_whitespace (c : Z) : bool :=
  ((9 <=? c) && (c <=? 13)) || (c =? 32) || (c =? 0xA0) || (c =? 0x1680)
  || ((0x2000 <=? c) && (c <=? 0x200A)) || (c =? 0x2028) || (c =? 0x2029)
  || (c =? 0x202F) || (c =? 0x205F) || (c =? 0x3000) || (c =? 0xFEFF).

Fixpoint trimStart (s : jsstring) : jsstring :=
  match s with
  | [] => []
  | c :: s' => if is_whitespace c then trimStart s' else s
  end.

Definition trim (s : jsstring) : jsstring := rev (trimStart (rev (trimStart s))).

(** [/^[\w\-]/i]: the first code unit is a letter, a digit, [_] or [-]. *)
Definition is_word_or_hyphen (c : Z) : bool :=
  ((48 <=? c) && (c <=? 57)) || ((65 <=? c) && (c <=? 90))
  || ((97 <=? c) && (c <=? 122)) || (c =? 95) || (c =? 45).

Definition matches_pattern (s : jsstring) : bool :=
  match s with
  | [] => false
  | c :: _ => is_word_or_hyphen c
  end.

(** The error of a failed validation; it has no [status]. *)
Definition ValidationError (message : string) : jserror :=
  mkError "ValidationError" None message.

(** The message of a failed [matches]: the pattern, between quotation
    marks. *)
Definition matches_message : string :=
  ("emojis must match the following: "
   ++ String "034"%char ("/^[\w\-]/i" ++ String "034"%char EmptyString))%string.

(** [emojis: yup.string().trim().matches(/^[\w\-]/i)]: not required, so an
    absent property passes. *)
Definition schema_emojis (v : value) : option jserror :=
  match v with
  | undefined => None
  | _ => if matches_pattern (trim (ToString v)) then None
         else Some (ValidationError matches_message)
  end.

(** [url: yup.string().trim().url().required()]. *)
Definition schema_url (v : value) : option jserror :=
  match v with
  | undefined => Some (ValidationError "url is a required field")
  | _ => match trim (ToString v) with
         | [] => Some (ValidationError "url is a required field")
         | s => if yup_url s then None
                else Some (ValidationError "url must be a valid URL")
         end
  end.

(** [recordSchema.validate(o)]: the schema reads the properties [emojis] and
    [url] of [o] and ignores any other; the promise rejects with the first
    error. *)
Definition recordSchema_validate (o : obj) : prog unit :=
  match schema_url (get "url" o) with
  | Some e => Throw e
  | None => match schema_emojis (get "emojis" o) with
            | Some e => Throw e
            | None => Ret tt
            end
  end.

(** [keyExists] (lines 60-68). *)
Definition keyExists (key : value) : prog value :=
  FindOne key (fun doc =>
    match doc with
    | Some _ => Ret (boolean true)
    | None => Ret (boolean false)
    end).

(** [punycode.encode(v)]; only strings reach it. *)
Definition punycode_encode (v : value) : prog value :=
  match v with
  | str s => e <- lift (punycode.encode s) ;; Ret (str e)
  | _ => Throw (mkError "TypeError" None "punycode.encode: not a string")
  end.

(** [for (let i = 0; i < 5; i++) emojis += nodeEmoji.random().emoji]. *)
Fixpoint random_emojis (i : nat) (emojis : jsstring) : prog jsstring :=
  match i with
  | O => Ret emojis
  | S i' => Random (fun emoji => random_emojis i' (emojis ++ emoji))
  end.

(** [generateRandomEmojis] (lines 71-82); [fuel] bounds the iterations of
    the [do ... while]. *)
Fixpoint generateRandomEmojis (fuel : nat) : prog jsstring :=
  match fuel with
  | O => Spin
  | S fuel' =>
      emojis <- random_emojis 5 [] ;;
      key <- punycode_encode (str emojis) ;;
      exists_ <- keyExists key ;;
      if truthy exists_ then generateRandomEmojis fuel' else Ret emojis
  end.

(** *** Routes (lines 88-161) and the error middleware (lines 167-190) *)

Definition existsErrorMessage : string := "This emoji slug already exists... 😿".
Definition emojiErrorMessage : string := "There must be at least 1 emoji in the slug... 👹".

(** [new Error(message)]. *)
Definition Error (message : string) : jserror := mkError "Error" None message.

Definition json (b : payload) : response := mkResponse 200 b.

(** [Array.prototype.slice(start)]. *)
Definition slice {A} (start : Z) (l : list A) : list A :=
  let len := Z.of_nat (length l) in
  let k := if start <? 0 then Z.max (len + start) 0 else Z.min start len in
  skipn (Z.to_nat k) l.

(** [GET /]. *)
Definition getAll : prog response :=
  Find (fun records => Ret (json (JsonRecords (rev records)))).

(** [GET /last/:num]; [index] is the integer [Number(req.params.num)]. *)
Definition getLast (index : Z) : prog response :=
  Find (fun records => Ret (json (JsonRecords (rev (slice (- index) records))))).

(** [GET /:id]. *)
Definition getById (id : jsstring) : prog response :=
  try_catch
    (FindOne (str id) (fun url_ =>
       match url_ with
       | Some u =>
           Ret (json (JsonURL
                  (str (u16 "https://" ++ domain ++ u16 "/" ++ ToString (raw u)))
                  (url u)))
       | None => Ret (mkResponse 404 (Text "not found"))
       end))
    (fun error => Ret (mkResponse 500 (Text "Error"))).

(** The error middleware; the [stack] property of the body is not
    represented. *)
Definition errorHandler (error : jserror) (req_body : obj) : response :=
  let status :=
    match err_status error with
    | Some s => if s =? 0 then None else Some s
    | None => None
    end in
  mkResponse
    match status with
    | Some s => s
    | None =>
        if String.eqb (err_message error) existsErrorMessage then 444
        else if String.eqb (err_message error) emojiErrorMessage then 555
        else 500
    end
    (JsonError (err_message error) req_body).

(** [encodedEmojis.slice(0, -1)]. *)
Definition slice_0_m1 (v : value) : prog value :=
  match v with
  | str s => Ret (str (removelast s))
  | _ => Throw (mkError "TypeError" None "encodedEmojis.slice is not a function")
  end.

(** [POST /newURL]. *)
Definition postNewURL (fuel : nat) (req_body : obj) : prog response :=
  let emojis := get "emojis" req_body in
  let url := get "url" req_body in
  encodedEmojis <- (if truthy emojis then punycode_encode emojis
                    else Ret undefined) ;;
  try_catch
    (_ <- recordSchema_validate
            [("encodedEmojis"%string, encodedEmojis); ("url"%string, url)] ;;
     '(emojis, encodedEmojis) <-
        (if negb (truthy encodedEmojis) then
           emojis <- generateRandomEmojis fuel ;;
           encodedEmojis <- punycode_encode (str emojis) ;;
           Ret (str emojis, encodedEmojis)
         else
           exists_ <- keyExists encodedEmojis ;;
           if truthy exists_ then Throw (Error existsErrorMessage)
           else Ret (emojis, encodedEmojis)) ;;
     sliced <- slice_0_m1 encodedEmojis ;;
     if strict_eq sliced emojis then Throw (Error emojiErrorMessage)
     else
       let newURL := {| emojis := encodedEmojis; url := url; raw := emojis |} in
       created <- urls_insert newURL ;;
       Ret (json (JsonCreated port domain created)))
    (fun error => Ret (errorHandler error req_body)).

(** *** Requests served concurrently

    The handlers of the requests in flight, each suspended at the operation
    it awaits.  A step carries out the awaited operation of one of them, and
    continues it up to its next operation. *)
Definition pool := list (prog response).

Fixpoint set_nth {A} (i : nat) (x : A) (l : list A) : list A :=
  match l, i with
  | [], _ => []
  | _ :: l', O => x :: l'
  | y :: l', S i' => y :: set_nth i' x l'
  end.

Inductive step : world * pool -> world * pool -> Prop :=
| step_at (w w' : world) (ps : pool) (i : nat) (p p' : prog response) :
    nth_error ps i = Some p ->
    op_step p w = Some (p', w') ->
    step (w, ps) (w', set_nth i p' ps).

Inductive steps : world * pool -> world * pool -> Prop :=
| steps_refl c : steps c c
| steps_step c1 c2 c3 : steps c1 c2 -> step c2 c3 -> steps c1 c3.

(** The run of a schedule: the indices of the handlers to continue, in
    order. *)
Fixpoint exec (schedule : list nat) (c : world * pool) : world * pool :=
  match schedule with
  | [] => c
  | i :: schedule' =>
      match nth_error (snd c) i with
      | Some p =>
          match op_step p (fst c) with
          | Some (p', w') => exec schedule' (w', set_nth i p' (snd c))
          | None => exec schedule' c
          end
      | None => exec schedule' c
      end
  end.

End Service.

(** ** The earlier variant, [src/api.js] *)
Module api.
Section Api.

Variable domain : jsstring.

(** [keyExists] (lines 59-67): the query is sent and its promise is dropped;
    the function has no [return]. *)
Definition keyExists (key : value) : prog value :=
  FindOne key (fun doc =>
    let _then := match doc with
                 | Some _ => true
                 | None => false
                 end in
    Ret undefined).

(** [generateRandomEmojis] (lines 70-82). *)
Fixpoint generateRandomEmojis (fuel : nat) : prog jsstring :=
  match fuel with
  | O => Spin
  | S fuel' =>
      emojis <- random_emojis 5 [] ;;
      key <- punycode_encode (str emojis) ;;
      exists_ <- keyExists key ;;
      if truthy exists_ then generateRandomEmojis fuel' else Ret emojis
  end.

(** [GET /:id] (lines 104-120). *)
Definition getById (id : jsstring) : prog response :=
  try_catch
    (FindOne (str id) (fun url_ =>
       match url_ with
       | Some u =>
           Ret (json (JsonURL
                  (str (u16 "http://" ++ domain ++ u16 "/" ++ ToString (raw u)))
                  (url u)))
       | None => Ret (mkResponse 404 (Text "not found"))
       end))
    (fun error => Ret (mkResponse 500 (Text "Error"))).

End Api.
End api.

(** ** Notions used in the statements *)

(** The candidate an iteration of the generator builds when [i] draws have
    been made: the next five draws, concatenated. *)
Definition candidate (rnd : nat -> jsstring) (i : nat) : jsstring :=
  concat (map rnd (seq i 5)).

(** The document a finished handler reports as created, if any. *)
Definition created_by (p : prog response) : option doc :=
  match p with
  | Ret (mkResponse _ (JsonCreated _ _ d)) => Some d
  | _ => None
  end.

Definition created (ps : pool) : list doc :=
  flat_map (fun p => match created_by p with
                     | Some d => [d]
                     | None => []
                     end) ps.

(** [emojis] is the encoding of [raw]. *)
Definition canonical (d : doc) : Prop :=
  exists s e, raw d = str s /\ punycode.encode s = inr e /\ emojis d = str e.

(** What resolution is to do, for a handler [resolve] that builds the emoji
    URL with [scheme]: the world is the same after any number of calls, the
    answer depends on the collection only, and it is either the [raw] and
    [url] of a stored document whose [emojis] is exactly [id], or
    [404 not found] when no stored document has that [emojis]. *)
Definition resolves (rnd : nat -> jsstring) (scheme : string) (domain : jsstring)
    (resolve : jsstring -> prog response) : Prop :=
  forall (w : world) (id : jsstring),
    (forall n : nat, Nat.iter n (fun w' => snd (run rnd (resolve id) w')) w = w)
    /\ (forall w' : world, urls w' = urls w ->
          fst (run rnd (resolve id) w') = fst (run rnd (resolve id) w))
    /\ ((exists d, In d (urls w) /\ emojis d = str id
           /\ fst (run rnd (resolve id) w)
              = Returned (json (JsonURL
                   (str (u16 scheme ++ domain ++ u16 "/" ++ ToString (raw d)))
                   (url d))))
        \/ ((forall d, In d (urls w) -> emojis d <> str id)
            /\ fst (run rnd (resolve id) w)
               = Returned (mkResponse 404 (Text "not found")))).

(** The stages of an allocation for the request [req_body]: at every
    operation the handler has reported no document as created; the document
    it inserts is canonical; a rejected insert ends the handler with the
    answer of the error middleware, an accepted one with the created
    document. *)
Fixpoint allocating (port : Z) (domain : jsstring) (req_body : obj)
    (p : prog response) : Prop :=
  match p with
  | Ret _ | Throw _ | Spin => True
  | Random k =>
      forall e, created_by (k e) = None /\ allocating port domain req_body (k e)
  | FindOne _ k =>
      forall r, created_by (k r) = None /\ allocating port domain req_body (k r)
  | Find k =>
      forall r, created_by (k r) = None /\ allocating port domain req_body (k r)
  | Insert d k =>
      canonical d
      /\ (forall e, k (inl e) = Ret (errorHandler e req_body))
      /\ (forall c, k (inr c) = Ret (json (JsonCreated port domain c)))
  end.

(** A stage of an allocation that has reported nothing as created. *)
Definition fresh (port : Z) (domain : jsstring) (p : prog response)
    (req_body : obj) : Prop :=
  created_by p = None /\ allocating port domain req_body p.

(** What every interleaving of the handlers of [reqs] keeps, from the world
    [w0]: every handler is at a stage of its allocation; the collection is
    that of [w0] followed by new documents, which are, up to their order,
    the documents reported as created; it is canonical and without two
    documents of the same key if that of [w0] is. *)
Definition pool_inv (port : Z) (domain : jsstring) (reqs : list (nat * obj))
    (w0 : world) (c : world * pool) : Prop :=
  Forall2 (fun r p => allocating port domain (snd r) p) reqs (snd c)
  /\ Permutation (urls (fst c)) (urls w0 ++ created (snd c))
  /\ (exists new, urls (fst c) = urls w0 ++ new)
  /\ (Forall canonical (urls w0) -> Forall canonical (urls (fst c)))
  /\ (NoDup (map emojis (urls w0)) -> NoDup (map emojis (urls (fst c)))).

(** The handlers of a list of requests, each with the bound of its
    generator loop. *)
Definition handlers (yup_url : jsstring -> bool) (port : Z) (domain : jsstring)
    (reqs : list (nat * obj)) : pool :=
  map (fun r => postNewURL yup_url port domain (fst r) (snd r)) reqs.

(** A string of the language holds 16-bit code units. *)
Definition code_units (s : jsstring) : Prop := Forall (fun c => 0 <= c < 65536) s.

(** An environment for the examples: the draws of an iteration are five
    times the same animal, the cat face first and then its successors in
    the code chart, and the validator accepts what starts with [https://]. *)
Definition sample_rnd (i : nat) : jsstring := [0xD83D; 0xDC31 + Z.of_nat (i / 5)].

Fixpoint starts_with (prefix s : jsstring) : bool :=
  match prefix, s with
  | [], _ => true
  | c :: prefix', c' :: s' => (c =? c') && starts_with prefix' s'
  | _ :: _, [] => false
  end.

Definition sample_url (s : jsstring) : bool := starts_with (u16 "https://") s.

Definition localhost : jsstring := u16 "localhost".
Definition example_com : value := str (u16 "https://example.com").
Definition cat_dog_frog : jsstring :=
  [0xD83D; 0xDC31; 0xD83D; 0xDC36; 0xD83D; 0xDC38].
Definition five_cats : jsstring :=
  [0xD83D; 0xDC31; 0xD83D; 0xDC31; 0xD83D; 0xDC31; 0xD83D; 0xDC31; 0xD83D; 0xDC31].
Definition five_dragons : jsstring :=
  [0xD83D; 0xDC32; 0xD83D; 0xDC32; 0xD83D; 0xDC32; 0xD83D; 0xDC32; 0xD83D; 0xDC32].

Definition doc_cats : doc :=
  {| emojis := str (u16 "5o8haaaa"); url := example_com; raw := str five_cats |}.
Definition doc_dragons : doc :=
  {| emojis := str (u16 "6o8haaaa"); url := example_com; raw := str five_dragons |}.
Definition doc_cat_dog_frog : doc :=
  {| emojis := str (u16 "5o8hkag"); url := example_com; raw := str cat_dog_frog |}.

Definition empty_world : world := mkWorld [] 0.

(** Request bodies: no slug; a slug of three animals; a slug of letters; a
    slug that starts with an exclamation mark; a target that is not a URL. *)
Definition body_no_slug : obj := [("url"%string, example_com)].
Definition body_cat_dog_frog : obj :=
  [("emojis"%string, str cat_dog_frog); ("url"%string, example_com)].
Definition body_abc : obj :=
  [("emojis"%string, str (u16 "abc")); ("url"%string, example_com)].
Definition body_bang_cat : obj :=
  [("emojis"%string, str (33 :: [0xD83D; 0xDC31])); ("url"%string, example_com)].
Definition body_not_a_url : obj := [("url"%string, str (u16 "not-a-url"))].
Definition body_cat_dog_frog_not_a_url : obj :=
  [("emojis"%string, str cat_dog_frog); ("url"%string, str (u16 "not-a-url"))].

(** A slug on which the encoder overflows: two thousand letters and the last
    code point of the code space. *)
Definition overflowing_slug : jsstring := repeat 97 2000 ++ [0xDBFF; 0xDFFF].
Definition body_overflowing_not_a_url : obj :=
  [("emojis"%string, str overflowing_slug); ("url"%string, str (u16 "not-a-url"))].

(** Two requests for the same slug, in flight together; their state when
    both have passed the check of [keyExists] and the first has inserted;
    and their state when the second has tried to insert too. *)
Definition two_requests : list (nat * obj) :=
  [(0%nat, body_cat_dog_frog); (0%nat, body_cat_dog_frog)].

Definition race_start : world * pool :=
  (empty_world, handlers sample_url 4000 localhost two_requests).

Definition race_first_inserted : world * pool :=
  exec sample_rnd [0; 1; 0]%nat race_start.

Definition race_end : world * pool :=
  exec sample_rnd [0; 1; 0; 1]%nat race_start.

(** ** Notions used in the further properties *)

(** The answers of [POST /newURL]: the created document with status 200, or
    an error body that carries the request, with status 444, 555 or 500. *)
Definition allowed_answer (port : Z) (domain : jsstring) (req_body : obj)
    (r : response) : Prop :=
  (status r = 200 /\ exists d, body r = JsonCreated port domain d)
  \/ ((status r = 444 \/ status r = 555 \/ status r = 500)
      /\ exists message, body r = JsonError message req_body).

(** Every answer a handler can end with is in [P], whatever its draws and
    queries give; a rejected insert gives the duplicate key error. *)
Fixpoint answering (P : response -> Prop) (p : prog response) : Prop :=
  match p with
  | Ret r => P r
  | Throw _ | Spin => True
  | Random k => forall e, answering P (k e)
  | FindOne _ k => forall r, answering P (k r)
  | Find k => forall r, answering P (k r)
  | Insert d k => answering P (k (inl E11000)) /\ forall c, answering P (k (inr c))
  end.

(** A random source that always draws the cat face, and one whose every
    draw is the slug on which the encoder overflows. *)
Definition cats_rnd (i : nat) : jsstring := [0xD83D; 0xDC31].
Definition overflowing_rnd (i : nat) : jsstring := overflowing_slug.

(** A target between blanks. *)
Definition padded_example_com : jsstring := u16 "  https://example.com ".
Definition body_other_target : obj :=
  [("emojis"%string, str cat_dog_frog);
   ("url"%string, str (u16 "https://other.example"))].
Definition body_overflowing : obj :=
  [("emojis"%string, str overflowing_slug); ("url"%string, example_com)].
Definition body_padded_target : obj :=
  [("emojis"%string, str cat_dog_frog); ("url"%string, str padded_example_com)].

(** A request without a slug when the five cats are stored: its handler
    alone, at its start and after its thirteen operations (five draws and
    the check, twice, then the insert). *)
Definition generation_start : world * pool :=
  (mkWorld [doc_cats] 0, handlers sample_url 4000 localhost [(2%nat, body_no_slug)]).

Definition generation_end : world * pool :=
  exec sample_rnd (repeat 0%nat 13) generation_start.

(** ** Properties of the encoder *)
Module punycode_facts.
Import punycode.

Lemma ucs2decode_basic (s : jsstring) :
  Forall (fun c => 0 <= c < 128) s -> ucs2decode s = s.
Proof.
  induction 1 as [|c s Hc _ IH]; simpl; [reflexivity|].
  destruct (Z.leb_spec 0xD800 c); [lia|]. simpl. rewrite IH. reflexivity.
Qed.

Lemma ucs2decode_nonempty (s : jsstring) : s <> [] -> ucs2decode s <> [].
Proof.
  destruct s as [|c s]; [congruence|]. intros _. simpl.
  destruct ((0xD800 <=? c) && (c <=? 0xDBFF)); [|discriminate].
  destruct s as [|c' s]; [discriminate|].
  destruct (Z.land c' 0xFC00 =? 0xDC00); discriminate.
Qed.

Lemma ucs2decode_cons (c : Z) (t : jsstring) :
  ucs2decode (c :: t) =
  if (0xD800 <=? c) && (c <=? 0xDBFF) then
    match t with
    | [] => [c]
    | extra :: t' =>
        if Z.land extra 0xFC00 =? 0xDC00 then
          (Z.shiftl (Z.land c 0x3FF) 10 + Z.land extra 0x3FF + 0x10000)
            :: ucs2decode t'
        else c :: ucs2decode t
    end
  else c :: ucs2decode t.
Proof. reflexivity. Qed.

Lemma land_3FF (c : Z) : 0 <= c -> 0 <= Z.land c 0x3FF <= 0x3FF.
Proof.
  intros Hc. change (Z.land c 0x3FF) with (Z.land c (Z.ones 10)).
  rewrite Z.land_ones by lia.
  pose proof (Z.mod_pos_bound c 1024 eq_refl) as H.
  change (2 ^ 10) with 1024. lia.
Qed.

Lemma ucs2decode_range (s : jsstring) :
  code_units s -> Forall (fun c => 0 <= c < 0x110000) (ucs2decode s).
Proof.
  unfold code_units.
  assert (H : forall (k : nat) (s : jsstring), (length s <= k)%nat ->
            Forall (fun c => 0 <= c < 65536) s ->
            Forall (fun c => 0 <= c < 0x110000) (ucs2decode s)).
  { induction k as [|k IH]; intros u Hlen Hs; destruct u as [|c t];
      try (constructor; fail); [cbn [length] in Hlen; lia|].
    cbn [length] in Hlen. rewrite ucs2decode_cons.
    inversion Hs as [|? ? Hc Ht]; subst.
    assert (Hrest : Forall (fun c => 0 <= c < 0x110000) (ucs2decode t))
      by (apply IH; [lia|assumption]).
    destruct ((0xD800 <=? c) && (c <=? 0xDBFF)).
    - destruct t as [|c' t']; [constructor; [lia|constructor]|].
      inversion Ht as [|? ? Hc' Ht']; subst.
      destruct (Z.land c' 0xFC00 =? 0xDC00).
      + constructor; [|apply IH; [cbn [length] in Hlen; lia|assumption]].
        rewrite Z.shiftl_mul_pow2 by lia.
        pose proof (land_3FF c (proj1 Hc)). pose proof (land_3FF c' (proj1 Hc')).
        change (2 ^ 10) with 1024. lia.
      + constructor; [lia|exact Hrest].
    - constructor; [lia|exact Hrest]. }
  intros Hs. apply (H (length s)); [lia|exact Hs].
Qed.

Lemma encode_loop_done (fuel : nat) (basicLength : Z) (input : list Z) (s : state) :
  Z.of_nat (length input) <= handledCPCount s ->
  encode_loop fuel basicLength input s = inr (output s).
Proof.
  intros H. destruct fuel; cbn [encode_loop];
    destruct (Z.ltb_spec (handledCPCount s) (Z.of_nat (length input)));
    try lia; reflexivity.
Qed.

Lemma filter_all {A} (f : A -> bool) (l : list A) :
  Forall (fun x => f x = true) l -> filter f l = l.
Proof. induction 1 as [|x l Hx _ IH]; simpl; [|rewrite Hx, IH]; reflexivity. Qed.

(** Sample strings of RFC 3492, section 7.1 (Chinese, and a Japanese title
    with digits and letters), and an emoji. *)
Example encode_chinese :
  encode [0x4ED6; 0x4EEC; 0x4E3A; 0x4EC0; 0x4E48; 0x4E0D; 0x8BF4; 0x4E2D; 0x6587]
  = inr (u16 "ihqwcrb4cv8a8dqg056pqjye").
Proof. vm_compute. reflexivity. Qed.

Example encode_japanese :
  encode [0x0033; 0x5E74; 0x0042; 0x7D44; 0x91D1; 0x516B; 0x5148; 0x751F]
  = inr (u16 "3B-ww4c5e180e575a65lsy2b").
Proof. vm_compute. reflexivity. Qed.

Example encode_cat_dog_frog : encode cat_dog_frog = inr (u16 "5o8hkag").
Proof. vm_compute. reflexivity. Qed.

Example encode_overflowing : encode overflowing_slug = inl RangeError_overflow.
Proof. vm_compute. reflexivity. Qed.

(** A non-empty string of basic code points encodes to itself followed by
    the delimiter. *)
Lemma encode_basic (s : jsstring) :
  Forall (fun c => 0 <= c < 128) s -> s <> [] ->
  encode s = inr (s ++ [delimiter]).
Proof.
  intros Hs Hne. unfold encode. rewrite (ucs2decode_basic s Hs).
  rewrite filter_all.
  2:{ eapply Forall_impl; [|exact Hs]. cbv beta. intros c Hc.
      apply Z.ltb_lt. lia. }
  rewrite encode_loop_done by (cbn [handledCPCount]; lia). cbn [output].
  destruct s as [|c s]; [congruence|]. reflexivity.
Qed.

Lemma varint_nonempty (q k b : Z) : varint q k b <> [].
Proof.
  funelim (varint q k b); discriminate.
Qed.

Lemma encode_pass_grows (basicLength : Z) (input : list Z) (s s2 : state) :
  encode_pass basicLength input s = Some s2 ->
  n s2 = n s
  /\ (length (output s) <= length (output s2))%nat
  /\ (In (n s) input -> (length (output s) < length (output s2))%nat).
Proof.
  revert s. induction input as [|c input IH]; intros s H; cbn [encode_pass] in H.
  - inversion H; subst. repeat split; [lia|intros []].
  - destruct ((c <? n s) && _); [discriminate|].
    destruct (Z.eqb_spec c (n s)) as [Heq|Hne].
    + apply IH in H. cbn [n output] in H. destruct H as (Hn & Hle & _).
      rewrite length_app in Hle.
      pose proof (varint_nonempty (if c <? n s then delta s + 1 else delta s)
                    base (bias s)) as Hv.
      destruct (varint _ _ _) as [|x v]; [congruence|]. cbn [length] in Hle.
      repeat split; [exact Hn|lia|intros _; lia].
    + apply IH in H. cbn [n output] in H. destruct H as (Hn & Hle & Hin).
      repeat split; [exact Hn|exact Hle|].
      intros [Hc|Hc]; [congruence|apply Hin; exact Hc].
Qed.

Lemma encode_loop_mono (fuel : nat) (basicLength : Z) (input : list Z)
    (s : state) (out : list Z) :
  encode_loop fuel basicLength input s = inr out ->
  (length (output s) <= length out)%nat.
Proof.
  revert s. induction fuel as [|fuel IH]; intros s H; cbn [encode_loop] in H.
  - destruct (_ <? _); inversion H; lia.
  - destruct (_ <? _); [|inversion H; lia].
    destruct (_ >? _); [discriminate|].
    destruct (encode_pass _ _ _) as [s2|] eqn:E; [|discriminate].
    apply IH in H. cbn [output] in H.
    apply encode_pass_grows in E. cbn [output] in E. lia.
Qed.

Lemma next_m_fold (n0 : Z) (input : list Z) (m0 : Z) :
  let m := fold_left (fun m currentValue =>
               if (currentValue >=? n0) && (currentValue <? m)
               then currentValue else m) input m0 in
  (m = m0 \/ (In m input /\ n0 <= m)) /\ m <= m0
  /\ (forall c, In c input -> n0 <= c -> m <= c).
Proof.
  revert m0. induction input as [|c input IH]; intros m0; cbn [fold_left]; cbv zeta.
  - repeat split; [left; reflexivity|lia|intros c []].
  - specialize (IH (if (c >=? n0) && (c <? m0) then c else m0)).
    cbv zeta in IH. destruct IH as (Hin & Hle & Hmin).
    destruct (Z.geb_spec c n0), (Z.ltb_spec c m0); cbn [andb] in *;
      (repeat split;
       [ destruct Hin as [Hin|[Hin Hge]];
         [ first [left; exact Hin
                 | right; split; [left; symmetry; exact Hin|lia] ]
         | right; split; [right; exact Hin|exact Hge] ]
       | lia
       | intros c' [Hc'|Hc'] Hn; [subst; lia|auto] ]).
Qed.

(** The next code point to handle is in the input, and nothing lies between
    it and [n0]. *)
Lemma next_m_spec (n0 : Z) (input : list Z) (c : Z) :
  Forall (fun c => c < maxInt) input -> In c input -> n0 <= c ->
  In (next_m n0 input) input /\ n0 <= next_m n0 input
  /\ (forall c', In c' input -> n0 <= c' -> next_m n0 input <= c').
Proof.
  intros Hall Hc Hn. destruct (next_m_fold n0 input maxInt) as (Hin & _ & Hmin).
  fold (next_m n0 input) in Hin, Hmin.
  rewrite Forall_forall in Hall. pose proof (Hall c Hc). pose proof (Hmin c Hc Hn).
  destruct Hin as [Hm|[Hin Hge]]; [lia|]. auto.
Qed.

Lemma next_m_in (n0 : Z) (input : list Z) :
  input <> [] -> Forall (fun c => n0 <= c < maxInt) input ->
  In (next_m n0 input) input.
Proof.
  intros Hne Hall. destruct input as [|c input]; [congruence|].
  inversion Hall as [|? ? Hc _]; subst.
  apply (next_m_spec n0 (c :: input) c); [|left; reflexivity|lia].
  eapply Forall_impl; [|exact Hall]. cbv beta. intros; lia.
Qed.

(** The encoding of a non-empty string is not empty. *)
Lemma encode_nonempty (s key : jsstring) :
  code_units s -> s <> [] -> encode s = inr key -> key <> [].
Proof.
  intros Hs Hne H. unfold encode in H.
  pose proof (ucs2decode_range s Hs) as Hr.
  pose proof (ucs2decode_nonempty s Hne) as Hi.
  set (input := ucs2decode s) in *.
  destruct (filter (fun c => c <? 0x80) input) as [|b basic] eqn:Hb.
  - assert (Hin : In (next_m initialN input) input).
    { apply next_m_in; [exact Hi|].
      apply Forall_forall. intros c Hc.
      rewrite Forall_forall in Hr. specialize (Hr c Hc).
      assert (Hnb : (c <? 0x80) = false).
      { destruct (c <? 0x80) eqn:Ec; [|reflexivity].
        assert (Hf : In c (filter (fun c => c <? 0x80) input))
          by (apply filter_In; auto).
        rewrite Hb in Hf. contradiction. }
      apply Z.ltb_ge in Hnb. unfold initialN, maxInt. lia. }
    cbn [length Z.of_nat Z.ltb Z.compare] in H.
    destruct (length input) as [|fuel] eqn:Hlen;
      [destruct input; [congruence|discriminate]|].
    cbn [encode_loop handledCPCount n delta bias output] in H.
    assert (Hlt : (0 <? Z.of_nat (length input)) = true)
      by (apply Z.ltb_lt; lia).
    rewrite Hlt in H.
    destruct (_ >? _); [discriminate|].
    destruct (encode_pass _ _ _) as [s2|] eqn:E; [|discriminate].
    apply encode_loop_mono in H. cbn [output] in H.
    apply encode_pass_grows in E. cbn [output n] in E.
    destruct E as (_ & _ & Hgrow).
    specialize (Hgrow Hin). cbn [length] in Hgrow.
    destruct key; [cbn [length] in H; lia|discriminate].
  - apply encode_loop_mono in H. cbn [output] in H.
    destruct (0 <? _); rewrite ?length_app in H; cbn [length] in H;
      destruct key; cbn [length] in H; try lia; discriminate.
Qed.

(** *** The digits are basic, and the fuel of the main loop suffices *)

Lemma threshold_range (k b : Z) : 1 <= threshold k b <= 26.
Proof.
  unfold threshold, tMin, tMax.
  destruct (Z.leb_spec k b); [lia|].
  destruct (Z.geb_spec k (b + 26)); lia.
Qed.

Lemma digitToBasic_range (d : Z) : 0 <= d < 36 -> 0 <= digitToBasic d < 128.
Proof. unfold digitToBasic. destruct (Z.ltb_spec d 26); lia. Qed.

Lemma varint_basic (q k b : Z) :
  0 <= q -> Forall (fun c => 0 <= c < 128) (varint q k b).
Proof.
  funelim (varint q k b); intros Hq.
  - match goal with
    | H : q < threshold ?k ?b |- _ => pose proof (threshold_range k b)
    end.
    constructor; [|constructor]. apply digitToBasic_range. lia.
  - clear Heq Heqcall. unfold base in *.
    match goal with
    | Hn : ~ q < threshold ?k ?b |- _ =>
        pose proof (threshold_range k b) as Ht; revert Ht Hn;
        match goal with
        | IH : _ -> Forall _ (varint _ _ _) |- _ => revert IH
        end;
        generalize (threshold k b) as t
    end.
    intros t IH Ht Hn.
    constructor.
    + apply digitToBasic_range.
      pose proof (Z.mod_pos_bound (q - t) (36 - t)). lia.
    + apply IH. apply Z.div_pos; lia.
Qed.

Lemma encode_pass_spec (basicLength : Z) (input : list Z) (s s2 : state) :
  encode_pass basicLength input s = Some s2 ->
  0 <= delta s -> Forall (fun c => 0 <= c < 128) (output s) ->
  n s2 = n s
  /\ handledCPCount s2
     = handledCPCount s
       + Z.of_nat (length (filter (fun c => c =? n s) input))
  /\ 0 <= delta s2
  /\ Forall (fun c => 0 <= c < 128) (output s2).
Proof.
  revert s. induction input as [|c input IH]; intros s H Hd Ho;
    cbn [encode_pass] in H.
  - inversion H; subst. cbn [filter length Z.of_nat]. repeat split; auto; lia.
  - destruct ((c <? n s) && _); [discriminate|].
    assert (Hd1 : 0 <= (if c <? n s then delta s + 1 else delta s))
      by (destruct (c <? n s); lia).
    cbn [filter]. destruct (Z.eqb_spec c (n s)) as [Heq|Hne].
    + apply IH in H; cbn [n delta output handledCPCount] in *.
      * destruct H as (Hn & Hh & Hd2 & Ho2). cbn [length].
        repeat split; auto. lia.
      * lia.
      * apply Forall_app. split; [exact Ho|apply varint_basic; exact Hd1].
    + apply IH in H; cbn [n delta output handledCPCount] in *; auto.
Qed.

Lemma filter_lt_exists {A} (f : A -> bool) (l : list A) :
  (length (filter f l) < length l)%nat -> exists x, In x l /\ f x = false.
Proof.
  induction l as [|x l IH]; cbn [filter length]; [lia|].
  destruct (f x) eqn:E; cbn [length]; intros H.
  - destruct IH as (y & Hy & Hf); [lia|]. exists y. split; [right|]; assumption.
  - exists x. split; [left; reflexivity|exact E].
Qed.

Lemma filter_below_succ (m : Z) (l : list Z) :
  length (filter (fun c => c <? m + 1) l)
  = Nat.add (length (filter (fun c => c <? m) l))
            (length (filter (fun c => c =? m) l)).
Proof.
  induction l as [|c l IH]; cbn [filter length]; [reflexivity|].
  destruct (Z.ltb_spec c (m + 1)), (Z.ltb_spec c m), (Z.eqb_spec c m);
    cbn [length]; lia.
Qed.

Lemma filter_below_gap (n0 m : Z) (l : list Z) :
  n0 <= m -> (forall c, In c l -> n0 <= c -> m <= c) ->
  filter (fun c => c <? m) l = filter (fun c => c <? n0) l.
Proof.
  intros Hle Hmin. apply filter_ext_in. intros c Hc.
  destruct (Z.ltb_spec c m), (Z.ltb_spec c n0); try reflexivity; try lia.
  specialize (Hmin c Hc). lia.
Qed.

Lemma filter_eq_in (m : Z) (l : list Z) :
  In m l -> Nat.lt 0 (length (filter (fun c => c =? m) l)).
Proof.
  intros H. assert (Hin : In m (filter (fun c => c =? m) l))
    by (apply filter_In; split; [exact H|apply Z.eqb_refl]).
  destruct (filter (fun c => c =? m) l); [contradiction|cbn [length]; lia].
Qed.

(** With the invariant, any fuel that covers the code points still to
    handle gives the same result, and the result is basic. *)
Lemma encode_loop_fuel (basicLength : Z) (input : list Z) :
  Forall (fun c => c < maxInt) input ->
  forall (k fuel : nat) (s : state),
    Z.of_nat (length input) - handledCPCount s <= Z.of_nat k ->
    (k <= fuel)%nat -> loop_inv input s ->
    encode_loop fuel basicLength input s = encode_loop k basicLength input s
    /\ (forall out, encode_loop k basicLength input s = inr out ->
          Forall (fun c => 0 <= c < 128) out).
Proof.
  intros Hmax. induction k as [|k IH]; intros fuel s Hk Hfuel (Hh & Hd & Ho).
  - rewrite !encode_loop_done by lia. split; [reflexivity|].
    intros out E. inversion E; subst. exact Ho.
  - destruct (Z.ltb_spec (handledCPCount s) (Z.of_nat (length input))) as [Hlt|Hge].
    2:{ rewrite !encode_loop_done by lia. split; [reflexivity|].
        intros out E. inversion E; subst. exact Ho. }
    destruct fuel as [|fuel]; [lia|]. cbn [encode_loop].
    destruct (handledCPCount s <? Z.of_nat (length input)); [|auto].
    2:{ split; [reflexivity|]. intros out E. inversion E; subst. exact Ho. }
    destruct (_ >? _) eqn:Eov; [split; [reflexivity|discriminate]|].
    destruct (filter_lt_exists (fun c => c <? n s) input) as (c & Hc & Hcn);
      [lia|].
    apply Z.ltb_ge in Hcn.
    destruct (next_m_spec (n s) input c Hmax Hc Hcn) as (Hmin & Hmn & Hmmin).
    set (m := next_m (n s) input) in *.
    destruct (encode_pass _ _ _) as [s2|] eqn:Ep;
      [|split; [reflexivity|discriminate]].
    apply encode_pass_spec in Ep; cbn [n delta output handledCPCount] in *;
      [|nia|exact Ho].
    destruct Ep as (Hn2 & Hh2 & Hd2 & Ho2).
    pose proof (filter_eq_in m input Hmin) as Hpos.
    apply IH; cbn [handledCPCount]; [lia|lia|].
    unfold loop_inv. cbn [n delta output handledCPCount].
    repeat split; [|lia|exact Ho2].
    rewrite Hh2, Hn2, Hh, filter_below_succ.
    rewrite (filter_below_gap (n s) m input Hmn Hmmin). lia.
Qed.

Lemma encode_loop_inv_init (input : list Z) :
  Forall (fun c => 0 <= c < 0x110000) input ->
  let basic := filter (fun c => c <? 0x80) input in
  let basicLength := Z.of_nat (length basic) in
  loop_inv input
    (mkState initialN 0 initialBias basicLength
       (if 0 <? basicLength then basic ++ [delimiter] else basic)).
Proof.
  intros Hr basic basicLength. unfold loop_inv. cbn [n delta output handledCPCount].
  split; [reflexivity|]. split; [lia|].
  assert (Hb : Forall (fun c => 0 <= c < 128) basic).
  { apply Forall_forall. intros c Hc. apply filter_In in Hc.
    destruct Hc as [Hc Hlt]. apply Z.ltb_lt in Hlt.
    rewrite Forall_forall in Hr. specialize (Hr c Hc). lia. }
  destruct (0 <? basicLength); [|exact Hb].
  apply Forall_app. split; [exact Hb|]. constructor; [|constructor].
  unfold delimiter. lia.
Qed.

(** The bound [encode] runs its main loop with is enough: more fuel gives
    the same result. *)
Lemma encode_fuel_adequate (s : jsstring) (fuel : nat) :
  code_units s ->
  (length (ucs2decode s) <= fuel)%nat ->
  let input := ucs2decode s in
  let basic := filter (fun c => c <? 0x80) input in
  let basicLength := Z.of_nat (length basic) in
  encode_loop fuel basicLength input
    (mkState initialN 0 initialBias basicLength
       (if 0 <? basicLength then basic ++ [delimiter] else basic))
  = encode s.
Proof.
  intros Hs Hfuel input basic basicLength. unfold encode.
  fold input. fold basic. fold basicLength.
  pose proof (ucs2decode_range s Hs) as Hr. fold input in Hr.
  apply (encode_loop_fuel basicLength input).
  - eapply Forall_impl; [|exact Hr]. cbv beta. unfold maxInt. intros; lia.
  - cbn [handledCPCount]. lia.
  - exact Hfuel.
  - apply encode_loop_inv_init. exact Hr.
Qed.

(** The encoding is a string of basic code points. *)
Lemma encode_output_basic (s key : jsstring) :
  code_units s -> encode s = inr key -> Forall (fun c => 0 <= c < 128) key.
Proof.
  intros Hs H. unfold encode in H.
  pose proof (ucs2decode_range s Hs) as Hr.
  set (input := ucs2decode s) in *.
  eapply (encode_loop_fuel _ input); [| | |apply encode_loop_inv_init; exact Hr|exact H].
  - eapply Forall_impl; [|exact Hr]. cbv beta. unfold maxInt. intros; lia.
  - cbn [handledCPCount]. lia.
  - apply Nat.le_refl.
Qed.

Lemma Forall_removelast {A} (P : A -> Prop) (l : list A) :
  Forall P l -> Forall P (removelast l).
Proof.
  induction 1 as [|x l Hx Hl IH]; cbn [removelast]; [constructor|].
  destruct l; [constructor|]. constructor; assumption.
Qed.

(** The encoding without its last code unit is the string itself exactly
    for the strings of basic code points. *)
Lemma removelast_encode (s key : jsstring) :
  code_units s -> s <> [] -> encode s = inr key ->
  (removelast key = s <-> Forall (fun c => 0 <= c < 128) s).
Proof.
  intros Hs Hne H. split.
  - intros Heq. rewrite <- Heq. apply Forall_removelast.
    apply (encode_output_basic s key Hs H).
  - intros Hb. rewrite (encode_basic s Hb Hne) in H. inversion H; subst.
    apply removelast_last.
Qed.

(** The only error of the encoder is the overflow. *)
Lemma encode_loop_error (fuel : nat) (basicLength : Z) (input : list Z)
    (s : state) (e : jserror) :
  encode_loop fuel basicLength input s = inl e -> e = RangeError_overflow.
Proof.
  revert s. induction fuel as [|fuel IH]; intros s H; cbn [encode_loop] in H.
  - destruct (_ <? _); discriminate.
  - destruct (_ <? _); [|discriminate].
    destruct (_ >? _); [congruence|].
    destruct (encode_pass _ _ _) as [s2|]; [|congruence].
    apply IH in H. exact H.
Qed.

Lemma encode_error (s : jsstring) (e : jserror) :
  encode s = inl e -> e = RangeError_overflow.
Proof. unfold encode. apply encode_loop_error. Qed.

End punycode_facts.

(** ** Properties of the model *)
Section Properties.

Variable rnd : nat -> jsstring.
Variable yup_url : jsstring -> bool.
Variable port : Z.
Variable domain : jsstring.

Lemma run_bind {A B} (p : prog A) (f : A -> prog B) (w : world) :
  run rnd (bind p f) w =
  match run rnd p w with
  | (Returned a, w') => run rnd (f a) w'
  | (Thrown e, w') => (Thrown e, w')
  | (Spinning, w') => (Spinning, w')
  end.
Proof.
  revert w. induction p as [a|e| |k IH|key k IH|k IH|d k IH]; intros w; simpl;
    try reflexivity; try apply IH.
  destruct (insert d (urls w)); apply IH.
Qed.

Lemma run_try_catch {A} (p : prog A) (h : jserror -> prog A) (w : world) :
  run rnd (try_catch p h) w =
  match run rnd p w with
  | (Thrown e, w') => run rnd (h e) w'
  | r => r
  end.
Proof.
  revert w. induction p as [a|e| |k IH|key k IH|k IH|d k IH]; intros w; simpl;
    try reflexivity; try apply IH.
  destruct (insert d (urls w)); apply IH.
Qed.

Lemma run_random_emojis (i : nat) (acc : jsstring) (w : world) :
  run rnd (random_emojis i acc) w =
  (Returned (acc ++ concat (map rnd (seq (draws w) i))),
   mkWorld (urls w) (draws w + i)).
Proof.
  revert acc w. induction i as [|i IH]; intros acc w; simpl.
  - rewrite app_nil_r, Nat.add_0_r. destruct w; reflexivity.
  - rewrite IH. simpl. rewrite <- app_assoc, Nat.add_succ_r. reflexivity.
Qed.

(** *** Listing *)

Lemma slice_last {A} (n : Z) (l : list A) :
  0 < n -> rev (slice (- n) l) = firstn (Z.to_nat n) (rev l).
Proof.
  intros Hn. unfold slice.
  destruct (Z.ltb_spec (- n) 0) as [_|H]; [|lia].
  rewrite firstn_rev. f_equal. f_equal. lia.
Qed.

(** C9: for every store, whose documents are in creation order, and every
    positive [n], [GET /last/n] answers with the [n] most recently created
    documents, most recent first (all of them when fewer than [n] exist), and
    [GET /] with all documents, most recent first; neither changes the
    store. *)
Theorem last_n_most_recent_first (w : world) (n : Z) :
  0 < n ->
  run rnd (getLast n) w
    = (Returned (json (JsonRecords (firstn (Z.to_nat n) (rev (urls w))))), w)
  /\ length (firstn (Z.to_nat n) (rev (urls w)))
     = Nat.min (Z.to_nat n) (length (urls w))
  /\ run rnd getAll w = (Returned (json (JsonRecords (rev (urls w)))), w).
Proof.
  intros Hn. repeat split.
  - simpl. rewrite slice_last by assumption. reflexivity.
  - rewrite length_firstn, length_rev. reflexivity.
Qed.

(** *** Resolution *)

Lemma strict_eq_true (a b : value) : strict_eq a b = true <-> a = b.
Proof. unfold strict_eq. destruct (value_eq_dec a b); split; congruence. Qed.

Lemma findOne_Some (key : value) (l : collection) (d : doc) :
  findOne key l = Some d -> In d l /\ emojis d = key.
Proof.
  intros H. apply find_some in H. destruct H as [Hin Hk].
  split; [assumption|]. apply strict_eq_true. exact Hk.
Qed.

Lemma findOne_None (key : value) (l : collection) :
  findOne key l = None <-> (forall d, In d l -> emojis d <> key).
Proof.
  split.
  - intros H d Hin Hk. pose proof (find_none _ _ H d Hin) as Hf.
    unfold has_key in Hf. apply strict_eq_true in Hk. congruence.
  - intros H. unfold findOne. induction l as [|d l IH]; simpl; [reflexivity|].
    unfold has_key at 1. destruct (strict_eq (emojis d) key) eqn:E.
    + apply strict_eq_true in E. exfalso. apply (H d); [left; reflexivity|exact E].
    + apply IH. intros d' Hd'. apply H. right. exact Hd'.
Qed.

Lemma iter_id {A} (f : A -> A) (a : A) (n : nat) : f a = a -> Nat.iter n f a = a.
Proof. intros H. induction n as [|n IH]; simpl; [reflexivity|]. rewrite IH. exact H. Qed.

Lemma run_getById (w : world) (id : jsstring) :
  run rnd (getById domain id) w
  = (match findOne (str id) (urls w) with
     | Some u => Returned (json (JsonURL
                   (str (u16 "https://" ++ domain ++ u16 "/" ++ ToString (raw u)))
                   (url u)))
     | None => Returned (mkResponse 404 (Text "not found"))
     end, w).
Proof.
  unfold getById. cbn [try_catch run].
  destruct (findOne (str id) (urls w)); reflexivity.
Qed.

Lemma run_api_getById (w : world) (id : jsstring) :
  run rnd (api.getById domain id) w
  = (match findOne (str id) (urls w) with
     | Some u => Returned (json (JsonURL
                   (str (u16 "http://" ++ domain ++ u16 "/" ++ ToString (raw u)))
                   (url u)))
     | None => Returned (mkResponse 404 (Text "not found"))
     end, w).
Proof.
  unfold api.getById. cbn [try_catch run].
  destruct (findOne (str id) (urls w)); reflexivity.
Qed.

Ltac resolve_cases Hrun w id :=
  split; [intros n; apply iter_id; rewrite Hrun; reflexivity|];
  split; [intros w' Hw'; rewrite !Hrun, Hw'; reflexivity|];
  rewrite Hrun; cbn [fst];
  destruct (findOne (str id) (urls w)) as [d|] eqn:E;
  [ left; exists d; apply findOne_Some in E; destruct E as [Hin Hk];
    repeat split; assumption
  | right; split; [apply findOne_None; exact E|reflexivity] ].

(** C8: resolution, in both variants, never changes the world however often
    it is called, answers the same for the same collection, answers with the
    [raw] and [url] of a stored document only when the [emojis] of that
    document is exactly the requested key, and answers [404 not found],
    creating nothing, otherwise. *)
Theorem resolve_read_only_exact_match :
  resolves rnd "https://" domain (getById domain)
  /\ resolves rnd "http://" domain (api.getById domain).
Proof.
  split; intros w id.
  - resolve_cases run_getById w id.
  - resolve_cases run_api_getById w id.
Qed.

(** *** The generator *)

Lemma run_draw_candidate {A} (f : jsstring -> prog A) (w : world) :
  run rnd (bind (random_emojis 5 []) f) w
  = run rnd (f (candidate rnd (draws w))) (mkWorld (urls w) (draws w + 5)).
Proof. rewrite run_bind, run_random_emojis. reflexivity. Qed.

(** C10: in [src/api.js], [keyExists] returns [undefined] whatever the key
    and the collection, so [generateRandomEmojis] leaves its loop after one
    iteration, five draws, and returns the first candidate, whether or not
    the key of that candidate is in the collection (when [punycode.encode]
    throws on the candidate, so does the function). *)
Theorem api_generate_returns_first_candidate (fuel : nat) (w : world) (key : value) :
  run rnd (api.keyExists key) w = (Returned undefined, w)
  /\ run rnd (api.generateRandomEmojis (S fuel)) w
     = (match punycode.encode (candidate rnd (draws w)) with
        | inr _ => Returned (candidate rnd (draws w))
        | inl e => Thrown e
        end, mkWorld (urls w) (draws w + 5)).
Proof.
  split; [reflexivity|].
  cbn [api.generateRandomEmojis]. rewrite run_draw_candidate.
  unfold punycode_encode.
  destruct (punycode.encode (candidate rnd (draws w))) as [e|k]; reflexivity.
Qed.

Lemma run_generateRandomEmojis (j fuel : nat) (w : world) (key : nat -> jsstring) :
  (forall i, (i <= j)%nat ->
     punycode.encode (candidate rnd (draws w + 5 * i)) = inr (key i)) ->
  (forall i, (i < j)%nat -> findOne (str (key i)) (urls w) <> None) ->
  findOne (str (key j)) (urls w) = None ->
  (j < fuel)%nat ->
  run rnd (generateRandomEmojis fuel) w
  = (Returned (candidate rnd (draws w + 5 * j)),
     mkWorld (urls w) (draws w + 5 * (j + 1))).
Proof.
  revert fuel w key. induction j as [|j IH]; intros fuel w key Henc Hused Hfree Hfuel;
    (destruct fuel as [|fuel]; [lia|]);
    cbn [generateRandomEmojis]; rewrite run_draw_candidate;
    unfold punycode_encode.
  - pose proof (Henc 0%nat (Nat.le_refl _)) as E.
    rewrite Nat.mul_0_r, Nat.add_0_r in E. rewrite E.
    cbn [lift bind keyExists run urls]. rewrite Hfree.
    cbn [truthy run]. rewrite Nat.mul_0_r, Nat.add_0_r. reflexivity.
  - pose proof (Henc 0%nat (Nat.le_0_l _)) as E.
    rewrite Nat.mul_0_r, Nat.add_0_r in E. rewrite E.
    cbn [lift bind keyExists run urls].
    pose proof (Hused 0%nat (Nat.lt_0_succ _)) as U.
    destruct (findOne (str (key 0%nat)) (urls w)) as [d|]; [|congruence].
    cbn [truthy run bind].
    rewrite (IH fuel _ (fun i => key (S i))); cbn [urls draws].
    + f_equal; [f_equal; f_equal; lia|f_equal; lia].
    + intros i Hi. rewrite <- (Henc (S i)) by lia. f_equal. f_equal. lia.
    + intros i Hi. apply (Hused (S i)). lia.
    + exact Hfree.
    + lia.
Qed.

(** *** Allocation, one request at a time *)

Lemma validate_handler_object (e u : value) :
  recordSchema_validate yup_url [("encodedEmojis"%string, e); ("url"%string, u)]
  = match schema_url yup_url u with
    | Some err => Throw err
    | None => Ret tt
    end.
Proof. reflexivity. Qed.

Lemma findOne_not_in (key : value) (l : collection) :
  findOne key l = None -> ~ In key (map emojis l).
Proof.
  intros H Hin. apply in_map_iff in Hin. destruct Hin as (d & Hk & Hd).
  rewrite findOne_None in H. exact (H d Hd Hk).
Qed.

Lemma insert_fresh (d : doc) (l : collection) :
  findOne (emojis d) l = None -> insert d l = inr (l ++ [d]).
Proof.
  intros H. unfold insert.
  destruct (existsb (has_key (emojis d)) l) eqn:E; [|reflexivity].
  apply existsb_exists in E. destruct E as (d' & Hin & Hk).
  apply strict_eq_true in Hk. rewrite findOne_None in H.
  exfalso. exact (H d' Hin Hk).
Qed.

(** C4: a request without a slug and with a valid target.  When the
    candidates of the first [j] iterations have keys in use and the next
    one has a free key, the loop of [generateRandomEmojis] stops at that
    candidate (given [fuel] for more than [j] iterations), and the handler
    stores and answers with the document of that candidate, whose key was
    not in the collection before the call.  The candidates are to encode
    without overflow, and the one kept is to hold a code unit that is not
    basic (ASCII), as the emoji of the catalog do. *)
Theorem auto_generation_finds_unused_key
    (fuel j : nat) (req_body : obj) (w : world) (key : nat -> jsstring) :
  truthy (get "emojis" req_body) = false ->
  schema_url yup_url (get "url" req_body) = None ->
  (forall i, (i <= j)%nat ->
     punycode.encode (candidate rnd (draws w + 5 * i)) = inr (key i)) ->
  (forall i, (i < j)%nat -> findOne (str (key i)) (urls w) <> None) ->
  findOne (str (key j)) (urls w) = None ->
  code_units (candidate rnd (draws w + 5 * j)) ->
  ~ Forall (fun c => 0 <= c < 128) (candidate rnd (draws w + 5 * j)) ->
  (j < fuel)%nat ->
  let d := {| emojis := str (key j);
              url := get "url" req_body;
              raw := str (candidate rnd (draws w + 5 * j)) |} in
  run rnd (generateRandomEmojis fuel) w
    = (Returned (candidate rnd (draws w + 5 * j)),
       mkWorld (urls w) (draws w + 5 * (j + 1)))
  /\ run rnd (postNewURL yup_url port domain fuel req_body) w
     = (Returned (json (JsonCreated port domain d)),
        mkWorld (urls w ++ [d]) (draws w + 5 * (j + 1)))
  /\ ~ In (emojis d) (map emojis (urls w)).
Proof.
  intros Hslug Hurl Henc Hused Hfree Hcu Hemoji Hfuel d.
  assert (Hraw : removelast (key j) <> candidate rnd (draws w + 5 * j)).
  { intros Heq. apply Hemoji.
    apply (punycode_facts.removelast_encode _ (key j)); auto.
    intros Hnil. apply Hemoji. rewrite Hnil. constructor. }
  pose proof (run_generateRandomEmojis j fuel w key Henc Hused Hfree Hfuel) as Hgen.
  split; [exact Hgen|]. split; [|apply findOne_not_in; exact Hfree].
  unfold postNewURL. rewrite Hslug. cbn [bind].
  rewrite validate_handler_object, Hurl. cbn [bind truthy negb].
  rewrite run_try_catch, !run_bind, Hgen.
  unfold punycode_encode. rewrite (Henc j (Nat.le_refl _)).
  cbn [lift bind run slice_0_m1].
  destruct (strict_eq (str (removelast (key j)))
              (str (candidate rnd (draws w + 5 * j)))) eqn:E.
  - apply strict_eq_true in E. congruence.
  - cbn [urls_insert bind run urls emojis].
    rewrite insert_fresh by exact Hfree. reflexivity.
Qed.

Lemma schema_url_error (v : value) (e : jserror) :
  schema_url yup_url v = Some e ->
  err_name e = "ValidationError"%string /\ err_status e = None
  /\ (err_message e = "url is a required field"%string
      \/ err_message e = "url must be a valid URL"%string).
Proof.
  unfold schema_url. intros H.
  destruct v as [|b|s];
    [inversion H; subst; cbn; auto| |];
    (destruct (trim _); [inversion H; subst; cbn; auto|];
     destruct (yup_url _); [discriminate|inversion H; subst; cbn; auto]).
Qed.

Lemma errorHandler_validation (e : jserror) (req_body : obj) (v : value) :
  schema_url yup_url v = Some e ->
  errorHandler e req_body = mkResponse 500 (JsonError (err_message e) req_body).
Proof.
  intros H. apply schema_url_error in H. destruct H as (_ & Hst & Hmsg).
  unfold errorHandler. rewrite Hst.
  destruct Hmsg as [-> | ->]; reflexivity.
Qed.

(** C5, as the code has it: when the schema rejects the target (it is
    missing, blank or not a URL), nothing is stored; and when the slug, if
    any, encodes, the handler performs no operation at all and the
    [ValidationError] reaches the error middleware, which answers with
    status 500, the status of every error it does not know. *)
Theorem invalid_target_answered_500
    (fuel : nat) (req_body : obj) (e : jserror) :
  schema_url yup_url (get "url" req_body) = Some e ->
  err_name e = "ValidationError"%string
  /\ (forall w, urls (snd (run rnd (postNewURL yup_url port domain fuel req_body) w))
               = urls w)
  /\ (truthy (get "emojis" req_body) = false
      \/ (exists s key, get "emojis" req_body = str s
                        /\ punycode.encode s = inr key) ->
      postNewURL yup_url port domain fuel req_body
      = Ret (mkResponse 500 (JsonError (err_message e) req_body))).
Proof.
  intros He. split; [apply (schema_url_error _ _ He)|].
  pose proof (errorHandler_validation e req_body _ He) as Hh.
  unfold postNewURL. split.
  - intros w.
    destruct (truthy (get "emojis" req_body)).
    + unfold punycode_encode. destruct (get "emojis" req_body) as [|b|s];
        try reflexivity.
      destruct (punycode.encode s) as [e'|key]; [reflexivity|].
      cbn [lift bind]. rewrite validate_handler_object, He. reflexivity.
    + cbn [bind]. rewrite validate_handler_object, He. reflexivity.
  - intros [Hno|(s & key & Hs & Hk)].
    + rewrite Hno. cbn [bind]. rewrite validate_handler_object, He.
      cbn [bind try_catch]. rewrite Hh. reflexivity.
    + rewrite Hs. unfold punycode_encode. rewrite Hk.
      destruct (truthy (str s)); cbn [lift bind];
        rewrite validate_handler_object, He; cbn [bind try_catch];
        rewrite Hh; reflexivity.
Qed.

Lemma truthy_str (s : jsstring) : s <> [] -> truthy (str s) = true.
Proof. destruct s; [congruence|reflexivity]. Qed.

(** C3, as the code has it: a request with a slug and a valid target is
    refused with the "already exists" error, status 444, when a stored
    document has the key of the slug; when none has, and the key without its
    last character is the slug itself, it is refused with the "at least 1
    emoji" error, status 555.  Nothing is stored in either case.  The second
    case is that of the slugs of basic (ASCII) code points, and of no
    other. *)
Theorem supplied_slug_rejections
    (fuel : nat) (req_body : obj) (w : world) (s key : jsstring) :
  get "emojis" req_body = str s -> s <> [] -> code_units s ->
  punycode.encode s = inr key ->
  schema_url yup_url (get "url" req_body) = None ->
  (findOne (str key) (urls w) <> None ->
   run rnd (postNewURL yup_url port domain fuel req_body) w
   = (Returned (mkResponse 444 (JsonError existsErrorMessage req_body)), w))
  /\ (findOne (str key) (urls w) = None -> removelast key = s ->
      run rnd (postNewURL yup_url port domain fuel req_body) w
      = (Returned (mkResponse 555 (JsonError emojiErrorMessage req_body)), w))
  /\ (removelast key = s <-> Forall (fun c => 0 <= c < 128) s).
Proof.
  intros Hs Hne Hcu Hk Hurl.
  pose proof (punycode_facts.encode_nonempty s key Hcu Hne Hk) as Hkne.
  assert (Hrun : run rnd (postNewURL yup_url port domain fuel req_body) w
    = match findOne (str key) (urls w) with
      | Some _ => (Returned (errorHandler (Error existsErrorMessage) req_body), w)
      | None =>
          if strict_eq (str (removelast key)) (str s)
          then (Returned (errorHandler (Error emojiErrorMessage) req_body), w)
          else run rnd
                 (try_catch
                    (created <- urls_insert
                                  {| emojis := str key;
                                     url := get "url" req_body;
                                     raw := str s |} ;;
                     Ret (json (JsonCreated port domain created)))
                    (fun error => Ret (errorHandler error req_body))) w
      end).
  { unfold postNewURL. rewrite Hs, (truthy_str s Hne).
    unfold punycode_encode. rewrite Hk. cbn [lift bind].
    rewrite validate_handler_object, Hurl, (truthy_str key Hkne).
    cbn [bind negb keyExists try_catch run].
    destruct (findOne (str key) (urls w)); cbn [truthy bind try_catch run];
      [reflexivity|].
    cbn [slice_0_m1 bind].
    destruct (strict_eq (str (removelast key)) (str s)); reflexivity. }
  split; [|split].
  - intros Hin. rewrite Hrun.
    destruct (findOne (str key) (urls w)); [reflexivity|congruence].
  - intros Hfree Hcanon. rewrite Hrun, Hfree, Hcanon.
    unfold strict_eq. destruct (value_eq_dec (str s) (str s)); [reflexivity|congruence].
  - apply punycode_facts.removelast_encode; assumption.
Qed.

(** *** Allocation, requests interleaved *)

Lemma fresh_middleware (e : jserror) (req_body : obj) :
  fresh port domain (Ret (errorHandler e req_body)) req_body.
Proof. split; reflexivity. Qed.

Lemma fresh_insert (s e : jsstring) (u : value) (req_body : obj) :
  punycode.encode s = inr e ->
  fresh port domain (try_catch
           (created <- urls_insert {| emojis := str e; url := u; raw := str s |} ;;
            Ret (json (JsonCreated port domain created)))
           (fun error => Ret (errorHandler error req_body))) req_body.
Proof.
  intros He. split; [reflexivity|]. cbn. repeat split.
  exists s, e. auto.
Qed.

(** Lines 148-155: the check of the encoded slug against the slug, and the
    insert. *)
Lemma fresh_tail (s e : jsstring) (u : value) (req_body : obj) :
  punycode.encode s = inr e ->
  fresh port domain (try_catch
           (sliced <- slice_0_m1 (str e) ;;
            if strict_eq sliced (str s) then Throw (Error emojiErrorMessage)
            else
              created <- urls_insert
                           {| emojis := str e; url := u; raw := str s |} ;;
              Ret (json (JsonCreated port domain created)))
           (fun error => Ret (errorHandler error req_body))) req_body.
Proof.
  intros He. cbn [slice_0_m1 bind].
  destruct (strict_eq (str (removelast e)) (str s)).
  - apply fresh_middleware.
  - apply fresh_insert. exact He.
Qed.

Lemma fresh_generate {A} (fuel : nat) (req_body : obj)
    (g : jsstring -> prog A) (f : A -> prog response) :
  (forall emojis, fresh port domain (try_catch (bind (g emojis) f)
                           (fun error => Ret (errorHandler error req_body)))
                    req_body) ->
  fresh port domain (try_catch (bind (bind (generateRandomEmojis fuel) g) f)
           (fun error => Ret (errorHandler error req_body))) req_body.
Proof.
  intros Hf. induction fuel as [|fuel IH]; [split; reflexivity|].
  split; [reflexivity|].
  cbn [generateRandomEmojis random_emojis bind try_catch allocating].
  intros e1. split; [reflexivity|].
  intros e2. split; [reflexivity|].
  intros e3. split; [reflexivity|].
  intros e4. split; [reflexivity|].
  intros e5. unfold punycode_encode.
  destruct (punycode.encode _) as [err|key];
    cbn [lift bind try_catch keyExists]; [split; reflexivity|].
  split; [reflexivity|]. cbn [allocating].
  intros [d|]; cbn [bind truthy]; [apply IH|apply Hf].
Qed.

Lemma fresh_auto (fuel : nat) (req_body : obj) (u : value) :
  fresh port domain (try_catch
    (x <- (emojis <- generateRandomEmojis fuel ;;
           encodedEmojis <- punycode_encode (str emojis) ;;
           Ret (str emojis, encodedEmojis)) ;;
     (let '(emojis, encodedEmojis) := x in
      sliced <- slice_0_m1 encodedEmojis ;;
      if strict_eq sliced emojis then Throw (Error emojiErrorMessage)
      else
        created <- urls_insert
                     {| emojis := encodedEmojis; url := u; raw := emojis |} ;;
        Ret (json (JsonCreated port domain created))))
    (fun error => Ret (errorHandler error req_body))) req_body.
Proof.
  apply fresh_generate. intros emojis. unfold punycode_encode.
  destruct (punycode.encode emojis) as [err|key] eqn:E; cbn [lift bind].
  - apply fresh_middleware.
  - apply fresh_tail. exact E.
Qed.

Lemma fresh_postNewURL (fuel : nat) (req_body : obj) :
  fresh port domain (postNewURL yup_url port domain fuel req_body) req_body.
Proof.
  unfold postNewURL.
  destruct (truthy (get "emojis" req_body)).
  - unfold punycode_encode.
    destruct (get "emojis" req_body) as [|b|s]; try (split; reflexivity).
    destruct (punycode.encode s) as [err|e] eqn:E; [split; reflexivity|].
    cbn [lift bind]. rewrite validate_handler_object.
    destruct (schema_url yup_url (get "url" req_body)); cbn [bind];
      [apply fresh_middleware|].
    destruct (truthy (str e)); cbn [negb].
    + cbn [keyExists bind try_catch]. split; [reflexivity|]. cbn [allocating].
      intros [d|]; cbn [bind truthy try_catch].
      * apply fresh_middleware.
      * apply fresh_tail. exact E.
    + apply fresh_auto.
  - cbn [bind]. rewrite validate_handler_object.
    destruct (schema_url yup_url (get "url" req_body)); cbn [bind];
      [apply fresh_middleware|].
    cbn [truthy negb]. apply fresh_auto.
Qed.

Lemma set_nth_app {A} (l1 l2 : list A) (a x : A) :
  set_nth (length l1) x (l1 ++ a :: l2) = l1 ++ x :: l2.
Proof. induction l1 as [|b l1 IH]; simpl; [|rewrite IH]; reflexivity. Qed.

Lemma created_app (l1 l2 : pool) : created (l1 ++ l2) = created l1 ++ created l2.
Proof. apply flat_map_app. Qed.

Lemma created_cons (p : prog response) (l : pool) :
  created (p :: l)
  = match created_by p with Some d => [d] | None => [] end ++ created l.
Proof. reflexivity. Qed.

Lemma created_handlers (reqs : list (nat * obj)) :
  created (handlers yup_url port domain reqs) = [].
Proof.
  induction reqs as [|r reqs IH]; [reflexivity|].
  unfold handlers. cbn [map]. rewrite created_cons.
  destruct (fresh_postNewURL (fst r) (snd r)) as [-> _]. exact IH.
Qed.

Lemma insert_inv (d : doc) (l : collection) :
  (insert d l = inl E11000 /\ In (emojis d) (map emojis l))
  \/ (insert d l = inr (l ++ [d]) /\ ~ In (emojis d) (map emojis l)).
Proof.
  unfold insert. destruct (existsb (has_key (emojis d)) l) eqn:E.
  - left. split; [reflexivity|]. apply existsb_exists in E.
    destruct E as (d' & Hin & Hk). apply strict_eq_true in Hk.
    rewrite <- Hk. apply in_map. exact Hin.
  - right. split; [reflexivity|]. intros Hin. apply in_map_iff in Hin.
    destruct Hin as (d' & Hk & Hin).
    assert (Ht : existsb (has_key (emojis d)) l = true).
    { apply existsb_exists. exists d'. split; [exact Hin|].
      apply strict_eq_true. exact Hk. }
    congruence.
Qed.

Lemma pool_inv_init (reqs : list (nat * obj)) (w0 : world) :
  pool_inv port domain reqs w0 (w0, handlers yup_url port domain reqs).
Proof.
  unfold pool_inv. cbn [fst snd]. rewrite created_handlers, app_nil_r.
  repeat split; auto.
  - unfold handlers. induction reqs as [|r reqs IH]; constructor; [|exact IH].
    apply fresh_postNewURL.
  - exists []. rewrite app_nil_r. reflexivity.
Qed.

Lemma pool_inv_step (reqs : list (nat * obj)) (w0 : world) (c c' : world * pool) :
  pool_inv port domain reqs w0 c -> step rnd c c' ->
  pool_inv port domain reqs w0 c'.
Proof.
  intros (Hall & Hperm & (new & Hnew) & Hcanon & Hnodup) Hstep.
  inversion Hstep as [w w' ps i p p' Hnth Hop]; subst. cbn [fst snd] in *.
  apply nth_error_split in Hnth. destruct Hnth as (l1 & l2 & -> & <-).
  rewrite set_nth_app.
  apply Forall2_app_inv_r in Hall.
  destruct Hall as (r1 & r2' & H1 & H2 & ->).
  inversion H2 as [|r ? r2 ? Hp H2']; subst.
  rewrite created_app, created_cons in Hperm.
  assert (Hkeep : forall q w2, urls w2 = urls w ->
            created_by p = None -> created_by q = None ->
            allocating port domain (snd r) q ->
            pool_inv port domain (r1 ++ r :: r2) w0 (w2, l1 ++ q :: l2)).
  { intros q w2 Hw2 Hcp Hcq Hq. unfold pool_inv. cbn [fst snd].
    rewrite created_app, created_cons, Hcq, Hw2. rewrite Hcp in Hperm.
    repeat split; auto.
    - apply Forall2_app; [exact H1|constructor; assumption].
    - exists new. exact Hnew. }
  destruct p as [a|e| |k|key k|k|d k]; cbn [op_step] in Hop; try discriminate.
  - injection Hop as Hp' Hw'. subst p' w'.
    destruct (Hp (rnd (draws w))) as [Hc Ha].
    apply (Hkeep _ _ eq_refl eq_refl Hc Ha).
  - injection Hop as Hp' Hw'. subst p' w'.
    destruct (Hp (findOne key (urls w))) as [Hc Ha].
    apply (Hkeep _ _ eq_refl eq_refl Hc Ha).
  - injection Hop as Hp' Hw'. subst p' w'.
    destruct (Hp (urls w)) as [Hc Ha].
    apply (Hkeep _ _ eq_refl eq_refl Hc Ha).
  - destruct Hp as (Hd & Hrej & Hacc).
    destruct (insert_inv d (urls w)) as [[Hi Hin]|[Hi Hin]]; rewrite Hi in Hop;
      injection Hop as Hp' Hw'; subst p' w'.
    + rewrite Hrej. apply (Hkeep _ _ eq_refl eq_refl); reflexivity.
    + rewrite Hacc. unfold pool_inv. cbn [fst snd urls].
      rewrite created_app, created_cons. cbn [created_by json app] in *.
      repeat split.
      * apply Forall2_app; [exact H1|constructor; [exact I|exact H2']].
      * rewrite Hperm. rewrite <- !app_assoc.
        do 2 apply Permutation_app_head.
        symmetry. apply Permutation_cons_append.
      * exists (new ++ [d]). rewrite Hnew, app_assoc. reflexivity.
      * intros H0. apply Forall_app. split; [auto|constructor; [exact Hd|constructor]].
      * intros H0. rewrite map_app. cbn [map].
        apply Permutation_NoDup with (l := emojis d :: map emojis (urls w)).
        -- rewrite Permutation_app_comm. reflexivity.
        -- constructor; auto.
Qed.

Lemma pool_inv_steps (reqs : list (nat * obj)) (w0 : world) (c : world * pool) :
  steps rnd (w0, handlers yup_url port domain reqs) c ->
  pool_inv port domain reqs w0 c.
Proof.
  intros H. remember (w0, handlers yup_url port domain reqs) as c0 eqn:E.
  induction H as [c|c1 c2 c3 _ IH Hstep]; subst.
  - apply pool_inv_init.
  - eapply pool_inv_step; [apply IH; reflexivity|exact Hstep].
Qed.

Lemma created_in (ps : pool) (i : nat) (p : prog response) (d : doc) :
  nth_error ps i = Some p -> created_by p = Some d -> In d (created ps).
Proof.
  intros Hnth Hc. apply nth_error_In in Hnth. unfold created.
  apply in_flat_map. exists p. split; [exact Hnth|]. rewrite Hc. left. reflexivity.
Qed.

Lemma created_unique_index (ps : pool) :
  NoDup (map emojis (created ps)) ->
  forall i j pi pj di dj,
    nth_error ps i = Some pi -> nth_error ps j = Some pj ->
    created_by pi = Some di -> created_by pj = Some dj ->
    emojis di = emojis dj -> i = j.
Proof.
  induction ps as [|p ps IH]; intros Hnd i j pi pj di dj Hi Hj Hci Hcj Hk.
  - destruct i; discriminate.
  - rewrite created_cons, map_app in Hnd.
    destruct i as [|i], j as [|j]; cbn [nth_error] in Hi, Hj.
    + reflexivity.
    + exfalso. injection Hi as ->. rewrite Hci in Hnd. cbn [map app] in Hnd.
      inversion Hnd as [|? ? Hnotin _]; subst. apply Hnotin.
      rewrite Hk. apply in_map. eapply created_in; eassumption.
    + exfalso. injection Hj as ->. rewrite Hcj in Hnd. cbn [map app] in Hnd.
      inversion Hnd as [|? ? Hnotin _]; subst. apply Hnotin.
      rewrite <- Hk. apply in_map. eapply created_in; eassumption.
    + f_equal. apply NoDup_app_remove_l in Hnd.
      eapply (IH Hnd); eassumption.
Qed.

(** C1: requests racing.  From a collection without two documents of the
    same key, whatever the requests and however their operations are
    interleaved, the collection never holds two documents of the same key,
    keeps the documents it had (it only grows at its end), holds besides
    them exactly the documents the finished handlers report as created, and
    no two handlers report a created document of the same key. *)
Theorem unique_keys_under_races
    (reqs : list (nat * obj)) (w0 w : world) (ps : pool) :
  NoDup (map emojis (urls w0)) ->
  steps rnd (w0, handlers yup_url port domain reqs) (w, ps) ->
  NoDup (map emojis (urls w))
  /\ (exists new, urls w = urls w0 ++ new)
  /\ Permutation (urls w) (urls w0 ++ created ps)
  /\ (forall i j pi pj di dj,
        nth_error ps i = Some pi -> nth_error ps j = Some pj ->
        created_by pi = Some di -> created_by pj = Some dj ->
        emojis di = emojis dj -> i = j).
Proof.
  intros Hnd Hsteps. apply pool_inv_steps in Hsteps.
  destruct Hsteps as (_ & Hperm & Hnew & _ & Hnodup). cbn [fst snd] in *.
  specialize (Hnodup Hnd).
  repeat split; [exact Hnodup|exact Hnew|exact Hperm|].
  apply created_unique_index.
  assert (Hp : Permutation (map emojis (urls w))
                 (map emojis (urls w0) ++ map emojis (created ps)))
    by (rewrite <- map_app; apply Permutation_map; exact Hperm).
  apply (Permutation_NoDup Hp) in Hnodup.
  apply NoDup_app_remove_l in Hnodup. exact Hnodup.
Qed.

(** C2, as the code has it: in any interleaving, when the insert a handler
    awaits is rejected because a stored document has the same key, the
    handler ends there, without another attempt: the duplicate key error of
    the driver reaches the error middleware, which answers with status 500
    and the message of the driver.  The collection is not changed. *)
Theorem rejected_insert_answered_500
    (reqs : list (nat * obj)) (w0 w : world) (ps : pool)
    (i : nat) (d : doc) (k : jserror + doc -> prog response) :
  steps rnd (w0, handlers yup_url port domain reqs) (w, ps) ->
  nth_error ps i = Some (Insert d k) ->
  In (emojis d) (map emojis (urls w)) ->
  exists r, nth_error reqs i = Some r
    /\ op_step rnd (Insert d k) w
       = Some (Ret (mkResponse 500 (JsonError (err_message E11000) (snd r))), w).
Proof.
  intros Hsteps Hnth Hin. apply pool_inv_steps in Hsteps.
  destruct Hsteps as (Hall & _). cbn [snd] in Hall.
  apply nth_error_split in Hnth. destruct Hnth as (l1 & l2 & -> & <-).
  apply Forall2_app_inv_r in Hall. destruct Hall as (r1 & r2' & H1 & H2 & ->).
  inversion H2 as [|r ? r2 ? Hp H2']; subst.
  exists r. split.
  - rewrite <- (Forall2_length H1). rewrite nth_error_app2 by lia.
    rewrite Nat.sub_diag. reflexivity.
  - destruct Hp as (_ & Hrej & _). cbn [op_step].
    destruct (insert_inv d (urls w)) as [[-> _]|[_ Hnot]]; [|contradiction].
    rewrite Hrej. reflexivity.
Qed.

(** C7: the encoder is a function, so that encoding the same slug twice
    gives the same result; and in any interleaving of any requests, from a
    collection whose documents have for [emojis] the encoding of their
    [raw], every stored document has, and so has every document a handler
    reports as created, whether the slug came with the request or from the
    generator. *)
Theorem persisted_key_is_encoding_of_raw
    (reqs : list (nat * obj)) (w0 w : world) (ps : pool) :
  Forall canonical (urls w0) ->
  steps rnd (w0, handlers yup_url port domain reqs) (w, ps) ->
  Forall canonical (urls w)
  /\ Forall canonical (created ps)
  /\ (forall (raw_ : jsstring) (k1 k2 : jserror + jsstring),
        punycode.encode raw_ = k1 -> punycode.encode raw_ = k2 -> k1 = k2).
Proof.
  intros Hc Hsteps. apply pool_inv_steps in Hsteps.
  destruct Hsteps as (_ & Hperm & _ & Hcanon & _). cbn [fst snd] in *.
  specialize (Hcanon Hc).
  split; [exact Hcanon|]. split; [|congruence].
  apply Forall_forall. intros d Hd.
  rewrite Forall_forall in Hcanon. apply Hcanon.
  apply (Permutation_in d (Permutation_sym Hperm)).
  apply in_or_app. right. exact Hd.
Qed.

(** C6 at the request [{ emojis: "!🐱", url: "https://example.com" }], whose
    encoded slug starts with an exclamation mark: with any validator that
    accepts the target, the handler stores the document and answers 200,
    although the schema, given the encoded slug under its [emojis] property,
    rejects it with a [ValidationError]. *)
Theorem slug_pattern_not_enforced (fuel : nat) :
  yup_url (u16 "https://example.com") = true ->
  let d := {| emojis := str (u16 "!-232s");
              url := example_com;
              raw := str (33 :: [0xD83D; 0xDC31]) |} in
  run rnd (postNewURL yup_url port domain fuel body_bang_cat) empty_world
    = (Returned (json (JsonCreated port domain d)), mkWorld [d] 0)
  /\ recordSchema_validate yup_url
       [("emojis"%string, emojis d); ("url"%string, example_com)]
     = Throw (ValidationError matches_message).
Proof.
  intros Hurl d.
  assert (Hs : schema_url yup_url example_com = None).
  { assert (Ht : trim (u16 "https://example.com") = u16 "https://example.com")
      by (vm_compute; reflexivity).
    revert Hurl. unfold schema_url, example_com. cbn [ToString]. rewrite Ht.
    destruct (u16 "https://example.com") as [|c t] eqn:Et;
      [vm_compute in Et; discriminate|].
    intros ->. reflexivity. }
  split.
  - unfold postNewURL.
    change (get "emojis" body_bang_cat) with (str (33 :: [0xD83D; 0xDC31])).
    change (get "url" body_bang_cat) with example_com.
    cbn [truthy]. unfold punycode_encode.
    replace (punycode.encode (33 :: [0xD83D; 0xDC31])) with
      (inr (u16 "!-232s") : jserror + jsstring) by (vm_compute; reflexivity).
    cbn [lift bind]. rewrite validate_handler_object, Hs. reflexivity.
  - unfold recordSchema_validate.
    change (get "url" [("emojis"%string, emojis d); ("url"%string, example_com)])
      with example_com.
    rewrite Hs. reflexivity.
Qed.

Lemma step_steps (c1 c2 c3 : world * pool) :
  step rnd c1 c2 -> steps rnd c2 c3 -> steps rnd c1 c3.
Proof.
  intros H12 H23. induction H23 as [c|c2 c3 c4 _ IH H34].
  - eapply steps_step; [constructor|exact H12].
  - eapply steps_step; [apply IH; exact H12|exact H34].
Qed.

(** A handler running alone is one of the interleavings: the pool of that
    handler alone steps to the world and the end [run] computes. *)
Lemma run_steps (p : prog response) (w : world) :
  exists p', steps rnd (w, [p]) (snd (run rnd p w), [p'])
    /\ op_step rnd p' (snd (run rnd p w)) = None
    /\ fst (run rnd p w)
       = match p' with
         | Ret a => Returned a
         | Throw e => Thrown e
         | _ => Spinning
         end.
Proof.
  revert w.
  assert (Hnext : forall (q q' : prog response) (w w' : world),
            op_step rnd q w = Some (q', w') ->
            (exists p', steps rnd (w', [q']) (snd (run rnd q' w'), [p'])
               /\ op_step rnd p' (snd (run rnd q' w')) = None
               /\ fst (run rnd q' w')
                  = match p' with
                    | Ret a => Returned a
                    | Throw e => Thrown e
                    | _ => Spinning
                    end) ->
            run rnd q w = run rnd q' w' ->
            exists p', steps rnd (w, [q]) (snd (run rnd q w), [p'])
               /\ op_step rnd p' (snd (run rnd q w)) = None
               /\ fst (run rnd q w)
                  = match p' with
                    | Ret a => Returned a
                    | Throw e => Thrown e
                    | _ => Spinning
                    end).
  { intros q q' w w' Hop (p' & Hs & Hend & Hout) Hrun. rewrite Hrun.
    exists p'. split; [|split; assumption].
    eapply step_steps; [|exact Hs].
    apply (step_at rnd w w' [q] 0 q q'); [reflexivity|exact Hop]. }
  induction p as [a|e| |k IH|key k IH|k IH|d k IH]; intros w.
  - exists (Ret a). repeat split. constructor.
  - exists (Throw e). repeat split. constructor.
  - exists Spin. repeat split. constructor.
  - eapply Hnext; [reflexivity|apply IH|reflexivity].
  - eapply Hnext; [reflexivity|apply IH|reflexivity].
  - eapply Hnext; [reflexivity|apply IH|reflexivity].
  - destruct (insert d (urls w)) as [e|u] eqn:E.
    + eapply (Hnext (Insert d k) (k (inl e)) w w);
        [cbn [op_step]; rewrite E; reflexivity|apply IH|cbn [run]; rewrite E; reflexivity].
    + eapply (Hnext (Insert d k) (k (inr d)) w (mkWorld u (draws w)));
        [cbn [op_step]; rewrite E; reflexivity|apply IH|cbn [run]; rewrite E; reflexivity].
Qed.

Lemma exec_steps (schedule : list nat) (c : world * pool) :
  steps rnd c (exec rnd schedule c).
Proof.
  assert (H : forall c0, steps rnd c0 c -> steps rnd c0 (exec rnd schedule c)).
  { revert c. induction schedule as [|i schedule IH]; intros c c0 H0;
      cbn [exec]; [exact H0|].
    destruct (nth_error (snd c) i) as [p|] eqn:Hnth; [|apply IH; exact H0].
    destruct (op_step rnd p (fst c)) as [[p' w']|] eqn:Hop; [|apply IH; exact H0].
    apply IH. eapply steps_step; [exact H0|].
    destruct c as [w ps]. econstructor; eassumption. }
  apply H. constructor.
Qed.

(** ** Further properties *)

(** *** Listing with an index that is not positive *)

Lemma slice_nonneg {A} (k : Z) (l : list A) :
  0 <= k -> slice k l = skipn (Z.to_nat k) l.
Proof.
  intros Hk. unfold slice.
  destruct (Z.ltb_spec k 0) as [H|_]; [lia|].
  destruct (Z.le_ge_cases k (Z.of_nat (length l))) as [Hle|Hge].
  - rewrite Z.min_l by exact Hle. reflexivity.
  - rewrite Z.min_r by lia. rewrite Nat2Z.id.
    rewrite !skipn_all2 by lia. reflexivity.
Qed.

(** X1: [GET /last/0] answers with all the documents, like [GET /], and
    [GET /last/-k] with all but the [k] oldest, most recent first. *)
Theorem last_of_nonpositive_index (w : world) (n : Z) :
  n <= 0 ->
  run rnd (getLast n) w
    = (Returned (json (JsonRecords (rev (skipn (Z.to_nat (- n)) (urls w))))), w)
  /\ (n = 0 -> run rnd (getLast n) w = run rnd getAll w).
Proof.
  intros Hn.
  assert (H : run rnd (getLast n) w
    = (Returned (json (JsonRecords (rev (skipn (Z.to_nat (- n)) (urls w))))), w)).
  { cbn [getLast run]. rewrite slice_nonneg by lia. reflexivity. }
  split; [exact H|]. intros ->. rewrite H. reflexivity.
Qed.

(** *** The check of [keyExists] and the insert *)

(** X2: on one and the same collection, [keyExists] answers [false] for a
    key exactly when the insert of a document with that key is accepted,
    and [true] exactly when it is rejected; it does not change the world. *)
Theorem keyExists_agrees_with_insert (d : doc) (w : world) :
  (run rnd (keyExists (emojis d)) w = (Returned (boolean false), w)
   <-> insert d (urls w) = inr (urls w ++ [d]))
  /\ (run rnd (keyExists (emojis d)) w = (Returned (boolean true), w)
      <-> insert d (urls w) = inl E11000).
Proof.
  cbn [keyExists run].
  destruct (findOne (emojis d) (urls w)) as [d'|] eqn:E.
  - apply findOne_Some in E. destruct E as [Hin Hk].
    destruct (insert_inv d (urls w)) as [[Hi _]|[_ Hnot]].
    + rewrite Hi. cbn [run]. split; split; intros H; try reflexivity; discriminate.
    + exfalso. apply Hnot. rewrite <- Hk. apply in_map. exact Hin.
  - rewrite (insert_fresh d (urls w) E). cbn [run].
    split; split; intros H; try reflexivity; discriminate.
Qed.

(** *** The generator *)

(** X3: whatever [generateRandomEmojis] returns, running alone, is the
    candidate of one of its iterations, built from the five draws of that
    iteration; its key is not in the collection, which is unchanged. *)
Theorem generated_slug_is_unused
    (fuel : nat) (w w' : world) (slug : jsstring) :
  run rnd (generateRandomEmojis fuel) w = (Returned slug, w') ->
  urls w' = urls w
  /\ exists j key,
       (j < fuel)%nat
       /\ slug = candidate rnd (draws w + 5 * j)
       /\ draws w' = (draws w + 5 * (j + 1))%nat
       /\ punycode.encode slug = inr key
       /\ ~ In (str key) (map emojis (urls w)).
Proof.
  revert w. induction fuel as [|fuel IH]; intros w H;
    cbn [generateRandomEmojis] in H; [discriminate|].
  rewrite run_draw_candidate in H. unfold punycode_encode in H.
  destruct (punycode.encode (candidate rnd (draws w))) as [e|key] eqn:E;
    cbn [lift bind keyExists run urls] in H; [discriminate|].
  destruct (findOne (str key) (urls w)) as [d|] eqn:F; cbn [truthy run bind] in H.
  - apply IH in H. cbn [urls draws] in H.
    destruct H as (Hu & j & key' & Hj & Hs & Hd & Hk & Hn).
    split; [exact Hu|]. exists (S j), key'.
    split; [lia|]. split; [rewrite Hs; f_equal; lia|].
    split; [lia|]. split; [exact Hk|exact Hn].
  - injection H as Hs Hw. subst w'. cbn [urls draws].
    split; [reflexivity|]. exists 0%nat, key.
    rewrite Nat.mul_0_r, Nat.add_0_r.
    split; [lia|]. split; [congruence|]. split; [lia|].
    split; [rewrite <- Hs; exact E|].
    apply findOne_not_in. exact F.
Qed.

(** X4: the generator does not give up.  As long as the candidates have
    keys in use, it is still running, and so is the handler of a request
    without a slug, which has answered nothing and stored nothing. *)
Theorem generator_spins_while_keys_are_taken
    (fuel : nat) (req_body : obj) (w : world) (key : nat -> jsstring) :
  truthy (get "emojis" req_body) = false ->
  schema_url yup_url (get "url" req_body) = None ->
  (forall i, (i < fuel)%nat ->
     punycode.encode (candidate rnd (draws w + 5 * i)) = inr (key i)
     /\ findOne (str (key i)) (urls w) <> None) ->
  run rnd (generateRandomEmojis fuel) w
    = (Spinning, mkWorld (urls w) (draws w + 5 * fuel))
  /\ run rnd (postNewURL yup_url port domain fuel req_body) w
     = (Spinning, mkWorld (urls w) (draws w + 5 * fuel)).
Proof.
  intros Hslug Hurl Hall.
  assert (Hgen : run rnd (generateRandomEmojis fuel) w
                 = (Spinning, mkWorld (urls w) (draws w + 5 * fuel))).
  { clear Hslug Hurl. revert w key Hall.
    induction fuel as [|fuel IH]; intros w key Hall.
    - cbn [generateRandomEmojis run]. rewrite Nat.mul_0_r, Nat.add_0_r.
      destruct w; reflexivity.
    - cbn [generateRandomEmojis]. rewrite run_draw_candidate.
      destruct (Hall 0%nat (Nat.lt_0_succ _)) as [E U].
      rewrite Nat.mul_0_r, Nat.add_0_r in E.
      unfold punycode_encode. rewrite E. cbn [lift bind keyExists run urls].
      destruct (findOne (str (key 0%nat)) (urls w)) as [d|]; [|congruence].
      cbn [truthy run bind].
      rewrite (IH _ (fun i => key (S i))); cbn [urls draws].
      + f_equal. f_equal. lia.
      + intros i Hi. destruct (Hall (S i)) as [E' U']; [lia|]. split; [|exact U'].
        rewrite <- E'. f_equal. f_equal. lia. }
  split; [exact Hgen|].
  unfold postNewURL. rewrite Hslug. cbn [bind].
  rewrite validate_handler_object, Hurl. cbn [bind truthy negb].
  rewrite run_try_catch, !run_bind, Hgen. reflexivity.
Qed.

(** *** Overflow of the encoder *)

(** X5: when the encoder overflows on the slug of the request, the error is
    thrown at line 129, before the [try]: whatever the target and the
    collection, the handler ends with the [RangeError] unhandled, without an
    answer, and stores nothing. *)
Theorem overflow_of_supplied_slug_is_unhandled
    (fuel : nat) (req_body : obj) (w : world) (s : jsstring) (e : jserror) :
  get "emojis" req_body = str s -> s <> [] ->
  punycode.encode s = inl e ->
  e = punycode.RangeError_overflow
  /\ run rnd (postNewURL yup_url port domain fuel req_body) w = (Thrown e, w).
Proof.
  intros Hs Hne He. split; [apply (punycode_facts.encode_error s e He)|].
  unfold postNewURL. rewrite Hs, (truthy_str s Hne).
  unfold punycode_encode. rewrite He. reflexivity.
Qed.

(** X6: when the encoder overflows on the first candidate of the generator,
    the error is thrown inside the [try]: the request without a slug is
    answered 500 with the message of the [RangeError], and nothing is
    stored. *)
Theorem overflow_of_candidate_answered_500
    (fuel : nat) (req_body : obj) (w : world) (e : jserror) :
  truthy (get "emojis" req_body) = false ->
  schema_url yup_url (get "url" req_body) = None ->
  punycode.encode (candidate rnd (draws w)) = inl e ->
  run rnd (postNewURL yup_url port domain (S fuel) req_body) w
  = (Returned (mkResponse 500
                 (JsonError "Overflow: input needs wider integers to process"
                    req_body)),
     mkWorld (urls w) (draws w + 5)).
Proof.
  intros Hslug Hurl He.
  pose proof (punycode_facts.encode_error _ e He) as ->.
  unfold postNewURL. rewrite Hslug. cbn [bind].
  rewrite validate_handler_object, Hurl. cbn [bind truthy negb].
  rewrite run_try_catch, !run_bind. cbn [generateRandomEmojis].
  rewrite run_draw_candidate. unfold punycode_encode. rewrite He.
  reflexivity.
Qed.

(** *** A slug that comes with the request *)

Lemma run_postNewURL_supplied
    (fuel : nat) (req_body : obj) (w : world) (s key : jsstring) :
  get "emojis" req_body = str s -> s <> [] -> code_units s ->
  punycode.encode s = inr key ->
  schema_url yup_url (get "url" req_body) = None ->
  run rnd (postNewURL yup_url port domain fuel req_body) w
  = match findOne (str key) (urls w) with
    | Some _ => (Returned (errorHandler (Error existsErrorMessage) req_body), w)
    | None =>
        if strict_eq (str (removelast key)) (str s)
        then (Returned (errorHandler (Error emojiErrorMessage) req_body), w)
        else
          let d := {| emojis := str key; url := get "url" req_body; raw := str s |} in
          (Returned (json (JsonCreated port domain d)),
           mkWorld (urls w ++ [d]) (draws w))
    end.
Proof.
  intros Hs Hne Hcu Hk Hurl.
  pose proof (punycode_facts.encode_nonempty s key Hcu Hne Hk) as Hkne.
  unfold postNewURL. rewrite Hs, (truthy_str s Hne).
  unfold punycode_encode. rewrite Hk. cbn [lift bind].
  rewrite validate_handler_object, Hurl, (truthy_str key Hkne).
  cbn [bind negb keyExists try_catch run].
  destruct (findOne (str key) (urls w)) eqn:F; cbn [truthy bind try_catch run];
    [reflexivity|].
  cbn [slice_0_m1 bind].
  destruct (strict_eq (str (removelast key)) (str s)); [reflexivity|].
  cbn zeta. cbn [urls_insert bind try_catch run emojis].
  rewrite insert_fresh by exact F. reflexivity.
Qed.

Lemma findOne_app (key : value) (l l' : collection) :
  findOne key (l ++ l')
  = match findOne key l with
    | Some d => Some d
    | None => findOne key l'
    end.
Proof.
  unfold findOne. induction l as [|d l IH]; cbn [app find]; [reflexivity|].
  destruct (has_key key d); [reflexivity|exact IH].
Qed.

Lemma findOne_appended (d : doc) (l : collection) :
  findOne (emojis d) l = None -> findOne (emojis d) (l ++ [d]) = Some d.
Proof.
  intros H. rewrite findOne_app, H. unfold findOne, has_key. cbn [find].
  assert (Ht : strict_eq (emojis d) (emojis d) = true)
    by (apply strict_eq_true; reflexivity).
  rewrite Ht. reflexivity.
Qed.

Lemma not_basic_not_canonical (s key : jsstring) :
  code_units s -> ~ Forall (fun c => 0 <= c < 128) s ->
  punycode.encode s = inr key ->
  s <> [] /\ strict_eq (str (removelast key)) (str s) = false.
Proof.
  intros Hcu Hnb Hk.
  assert (Hne : s <> []) by (intros ->; apply Hnb; constructor).
  split; [exact Hne|].
  destruct (strict_eq (str (removelast key)) (str s)) eqn:E; [|reflexivity].
  apply strict_eq_true in E. injection E as E.
  exfalso. apply Hnb. apply (punycode_facts.removelast_encode s key); assumption.
Qed.

(** X7: allocation, then resolution.  A request with a slug that holds a
    code unit that is not basic (ASCII) and whose key is free, and with a
    valid target, stores the document with the key, the target as given and
    the slug, answers 200 with it, and draws nothing; resolving the key
    afterwards answers with that slug and that target. *)
Theorem supplied_slug_stored_then_resolved
    (fuel : nat) (req_body : obj) (w : world) (s key : jsstring) :
  get "emojis" req_body = str s -> code_units s ->
  ~ Forall (fun c => 0 <= c < 128) s ->
  punycode.encode s = inr key ->
  schema_url yup_url (get "url" req_body) = None ->
  findOne (str key) (urls w) = None ->
  let d := {| emojis := str key; url := get "url" req_body; raw := str s |} in
  let w1 := mkWorld (urls w ++ [d]) (draws w) in
  run rnd (postNewURL yup_url port domain fuel req_body) w
    = (Returned (json (JsonCreated port domain d)), w1)
  /\ run rnd (getById domain key) w1
     = (Returned (json (JsonURL
                   (str (u16 "https://" ++ domain ++ u16 "/" ++ s))
                   (get "url" req_body))), w1).
Proof.
  intros Hs Hcu Hnb Hk Hurl Hfree d w1.
  destruct (not_basic_not_canonical s key Hcu Hnb Hk) as [Hne Hc].
  split.
  - rewrite (run_postNewURL_supplied fuel req_body w s key) by assumption.
    rewrite Hfree, Hc. reflexivity.
  - rewrite run_getById. subst w1. cbn [urls].
    pose proof (findOne_appended d (urls w) Hfree) as Hf.
    change (emojis d) with (str key) in Hf. rewrite Hf. reflexivity.
Qed.

(** X8: the same slug again.  After that allocation, a request with the
    same slug and any valid target is refused with the "already exists"
    error, status 444; the collection is unchanged, and the key still
    resolves to the first document. *)
Theorem repeated_slug_refused
    (fuel fuel' : nat) (req_body req_body' : obj) (w : world)
    (s key : jsstring) :
  get "emojis" req_body = str s -> code_units s ->
  ~ Forall (fun c => 0 <= c < 128) s ->
  punycode.encode s = inr key ->
  schema_url yup_url (get "url" req_body) = None ->
  findOne (str key) (urls w) = None ->
  get "emojis" req_body' = str s ->
  schema_url yup_url (get "url" req_body') = None ->
  let d := {| emojis := str key; url := get "url" req_body; raw := str s |} in
  let w1 := snd (run rnd (postNewURL yup_url port domain fuel req_body) w) in
  run rnd (postNewURL yup_url port domain fuel' req_body') w1
    = (Returned (mkResponse 444 (JsonError existsErrorMessage req_body')), w1)
  /\ urls w1 = urls w ++ [d]
  /\ findOne (str key) (urls w1) = Some d.
Proof.
  intros Hs Hcu Hnb Hk Hurl Hfree Hs' Hurl' d w1.
  destruct (not_basic_not_canonical s key Hcu Hnb Hk) as [Hne Hc].
  assert (Hw1 : w1 = mkWorld (urls w ++ [d]) (draws w)).
  { subst w1. rewrite (run_postNewURL_supplied fuel req_body w s key) by assumption.
    rewrite Hfree, Hc. reflexivity. }
  assert (Hfound : findOne (str key) (urls w1) = Some d).
  { rewrite Hw1. cbn [urls]. apply (findOne_appended d (urls w) Hfree). }
  split; [|split; [rewrite Hw1; reflexivity|exact Hfound]].
  rewrite (run_postNewURL_supplied fuel' req_body' w1 s key) by assumption.
  rewrite Hfound. reflexivity.
Qed.

(** *** One write or none *)

(** What the run of a handler adds to the collection: the document it
    answers as created, or nothing. *)
Lemma run_postNewURL_collection (fuel : nat) (req_body : obj) (w : world) :
  urls (snd (run rnd (postNewURL yup_url port domain fuel req_body) w))
  = urls w
    ++ match fst (run rnd (postNewURL yup_url port domain fuel req_body) w) with
       | Returned (mkResponse _ (JsonCreated _ _ d)) => [d]
       | _ => []
       end.
Proof.
  destruct (run_steps (postNewURL yup_url port domain fuel req_body) w)
    as (p' & Hsteps & _ & Hout).
  apply (pool_inv_steps [(fuel, req_body)] w) in Hsteps.
  destruct Hsteps as (_ & Hperm & (new & Hnew) & _). cbn [fst snd] in *.
  rewrite Hnew in Hperm. apply Permutation_app_inv_l in Hperm.
  rewrite created_cons in Hperm. cbn [created flat_map] in Hperm.
  rewrite app_nil_r in Hperm. apply Permutation_sym in Hperm.
  rewrite Hout, Hnew. f_equal.
  destruct p' as [r|e| |k|key k|k|d k]; cbn [created_by] in Hperm;
    try (apply Permutation_nil in Hperm; exact Hperm).
  destruct r as [st [records|eu ru|pt dm d|msg rq|txt]];
    try (apply Permutation_nil in Hperm; exact Hperm).
  apply Permutation_length_1_inv in Hperm. exact Hperm.
Qed.

(** X9: a handler of [POST /newURL] running alone, whatever the request,
    either answers with a created document and has added exactly that
    document at the end of the collection, or has left the collection as it
    was (when it answers an error, ends unhandled, or is still in its
    loop). *)
Theorem allocation_writes_once_or_not_at_all
    (fuel : nat) (req_body : obj) (w : world) :
  match run rnd (postNewURL yup_url port domain fuel req_body) w with
  | (Returned (mkResponse _ (JsonCreated _ _ d)), w') => urls w' = urls w ++ [d]
  | (_, w') => urls w' = urls w
  end.
Proof.
  pose proof (run_postNewURL_collection fuel req_body w) as H.
  destruct (run rnd (postNewURL yup_url port domain fuel req_body) w) as [o w'].
  cbn [fst snd] in H.
  destruct o as [[st [records|eu ru|pt dm d|msg rq|txt]]|e| ];
    rewrite ?app_nil_r in H; exact H.
Qed.

(** X15: the created document heads the listings.  When a handler of
    [POST /newURL], running alone, answers with a created document, [GET /]
    then lists that document first, followed by the documents that were
    stored, most recent first, and [GET /last/1] lists it alone. *)
Theorem created_document_listed_first
    (fuel : nat) (req_body : obj) (w w' : world)
    (st pt : Z) (dm : jsstring) (d : doc) :
  run rnd (postNewURL yup_url port domain fuel req_body) w
    = (Returned (mkResponse st (JsonCreated pt dm d)), w') ->
  run rnd getAll w' = (Returned (json (JsonRecords (d :: rev (urls w)))), w')
  /\ run rnd (getLast 1) w' = (Returned (json (JsonRecords [d])), w').
Proof.
  intros H. pose proof (run_postNewURL_collection fuel req_body w) as Hc.
  rewrite H in Hc. cbn [fst snd] in Hc.
  split.
  - cbn [getAll run]. rewrite Hc, rev_app_distr. reflexivity.
  - cbn [getLast run]. rewrite slice_last by lia.
    rewrite Hc, rev_app_distr. reflexivity.
Qed.

(** *** The answers *)

Lemma answering_step (P : response -> Prop) (p p' : prog response) (w w' : world) :
  answering P p -> op_step rnd p w = Some (p', w') -> answering P p'.
Proof.
  intros Hp Hop.
  destruct p as [r|e| |k|key k|k|d k]; cbn [op_step] in Hop; try discriminate;
    cbn [answering] in Hp.
  - injection Hop as <- _. apply Hp.
  - injection Hop as <- _. apply Hp.
  - injection Hop as <- _. apply Hp.
  - destruct Hp as [Hrej Hacc].
    destruct (insert_inv d (urls w)) as [[Hi _]|[Hi _]]; rewrite Hi in Hop;
      injection Hop as <- _; [exact Hrej|apply Hacc].
Qed.

Lemma allowed_middleware (e : jserror) (req_body : obj) :
  err_status e = None ->
  allowed_answer port domain req_body (errorHandler e req_body).
Proof.
  intros He. right. unfold errorHandler. rewrite He. cbn [status body].
  split; [|eexists; reflexivity].
  destruct (String.eqb _ existsErrorMessage); [auto|].
  destruct (String.eqb _ emojiErrorMessage); auto.
Qed.

Lemma answering_tail (s e : jsstring) (u : value) (req_body : obj) :
  answering (allowed_answer port domain req_body)
    (try_catch
       (sliced <- slice_0_m1 (str e) ;;
        if strict_eq sliced (str s) then Throw (Error emojiErrorMessage)
        else
          created <- urls_insert
                       {| emojis := str e; url := u; raw := str s |} ;;
          Ret (json (JsonCreated port domain created)))
       (fun error => Ret (errorHandler error req_body))).
Proof.
  cbn [slice_0_m1 bind].
  destruct (strict_eq (str (removelast e)) (str s)).
  - apply allowed_middleware. reflexivity.
  - cbn. split; [apply allowed_middleware; reflexivity|].
    intros c. left. split; [reflexivity|]. eexists; reflexivity.
Qed.

Lemma answering_generate {A} (fuel : nat) (req_body : obj)
    (g : jsstring -> prog A) (f : A -> prog response) :
  (forall emojis, answering (allowed_answer port domain req_body)
                    (try_catch (bind (g emojis) f)
                       (fun error => Ret (errorHandler error req_body)))) ->
  answering (allowed_answer port domain req_body)
    (try_catch (bind (bind (generateRandomEmojis fuel) g) f)
       (fun error => Ret (errorHandler error req_body))).
Proof.
  intros Hf. induction fuel as [|fuel IH]; [exact I|].
  cbn [generateRandomEmojis random_emojis bind try_catch answering].
  intros e1 e2 e3 e4 e5. unfold punycode_encode.
  destruct (punycode.encode _) as [err|key] eqn:E;
    cbn [lift bind try_catch keyExists answering].
  - apply punycode_facts.encode_error in E. subst err.
    apply allowed_middleware. reflexivity.
  - intros [d|]; cbn [bind truthy]; [apply IH|apply Hf].
Qed.

Lemma answering_auto (fuel : nat) (req_body : obj) (u : value) :
  answering (allowed_answer port domain req_body)
    (try_catch
      (x <- (emojis <- generateRandomEmojis fuel ;;
             encodedEmojis <- punycode_encode (str emojis) ;;
             Ret (str emojis, encodedEmojis)) ;;
       (let '(emojis, encodedEmojis) := x in
        sliced <- slice_0_m1 encodedEmojis ;;
        if strict_eq sliced emojis then Throw (Error emojiErrorMessage)
        else
          created <- urls_insert
                       {| emojis := encodedEmojis; url := u; raw := emojis |} ;;
          Ret (json (JsonCreated port domain created))))
      (fun error => Ret (errorHandler error req_body))).
Proof.
  apply answering_generate. intros emojis. unfold punycode_encode.
  destruct (punycode.encode emojis) as [err|key] eqn:E; cbn [lift bind].
  - apply punycode_facts.encode_error in E. subst err.
    apply allowed_middleware. reflexivity.
  - apply answering_tail.
Qed.

Lemma answering_postNewURL (fuel : nat) (req_body : obj) :
  answering (allowed_answer port domain req_body)
    (postNewURL yup_url port domain fuel req_body).
Proof.
  unfold postNewURL.
  destruct (truthy (get "emojis" req_body)).
  - unfold punycode_encode.
    destruct (get "emojis" req_body) as [|b|s]; try exact I.
    destruct (punycode.encode s) as [err|e] eqn:E; [exact I|].
    cbn [lift bind]. rewrite validate_handler_object.
    destruct (schema_url yup_url (get "url" req_body)) as [err|] eqn:V;
      cbn [bind].
    { apply allowed_middleware. apply (schema_url_error _ _ V). }
    destruct (truthy (str e)); cbn [negb].
    + cbn [keyExists bind try_catch answering].
      intros [d|]; cbn [bind truthy try_catch].
      * apply allowed_middleware. reflexivity.
      * apply answering_tail.
    + apply answering_auto.
  - cbn [bind]. rewrite validate_handler_object.
    destruct (schema_url yup_url (get "url" req_body)) as [err|] eqn:V;
      cbn [bind].
    { apply allowed_middleware. apply (schema_url_error _ _ V). }
    cbn [truthy negb]. apply answering_auto.
Qed.

Lemma answering_steps (reqs : list (nat * obj)) (w0 : world) (c : world * pool) :
  steps rnd (w0, handlers yup_url port domain reqs) c ->
  Forall2 (fun r p => answering (allowed_answer port domain (snd r)) p)
    reqs (snd c).
Proof.
  intros H. remember (w0, handlers yup_url port domain reqs) as c0 eqn:E.
  induction H as [c|c1 c2 c3 _ IH Hstep]; subst.
  - cbn [snd]. unfold handlers.
    induction reqs as [|r reqs IH]; constructor; [|exact IH].
    apply answering_postNewURL.
  - specialize (IH eq_refl).
    inversion Hstep as [w w' ps i p p' Hnth Hop]; subst. cbn [snd] in *.
    apply nth_error_split in Hnth. destruct Hnth as (l1 & l2 & -> & <-).
    rewrite set_nth_app.
    apply Forall2_app_inv_r in IH. destruct IH as (r1 & r2' & H1 & H2 & ->).
    inversion H2 as [|r ? r2 ? Hp H2']; subst.
    apply Forall2_app; [exact H1|]. constructor; [|exact H2'].
    eapply answering_step; eassumption.
Qed.

(** X10: the statuses of [POST /newURL].  In any interleaving of any
    requests, a handler that has answered has answered either 200 with the
    created document, or 444, 555 or 500 with an error body that carries its
    request; no other status is ever sent. *)
Theorem allocation_answers_200_444_555_500
    (reqs : list (nat * obj)) (w0 w : world) (ps : pool)
    (i : nat) (r : nat * obj) (answer : response) :
  steps rnd (w0, handlers yup_url port domain reqs) (w, ps) ->
  nth_error reqs i = Some r ->
  nth_error ps i = Some (Ret answer) ->
  allowed_answer port domain (snd r) answer.
Proof.
  intros Hsteps Hr Hp. apply answering_steps in Hsteps. cbn [snd] in Hsteps.
  revert i Hr Hp. induction Hsteps as [|r0 p0 reqs' ps' H0 _ IH];
    intros i Hr Hp; destruct i as [|i]; cbn [nth_error] in *; try discriminate.
  - injection Hr as ->. injection Hp as ->. exact H0.
  - eapply IH; eassumption.
Qed.

(** *** What later allocations leave as it is *)

(** X11: resolution is stable.  Whatever requests are served afterwards and
    however they interleave, a key that resolved to a document resolves to
    the same document, and [GET /:id] gives the same answer. *)
Theorem resolution_stable_under_allocations
    (reqs : list (nat * obj)) (w0 w : world) (ps : pool)
    (id : jsstring) (d : doc) :
  steps rnd (w0, handlers yup_url port domain reqs) (w, ps) ->
  findOne (str id) (urls w0) = Some d ->
  findOne (str id) (urls w) = Some d
  /\ fst (run rnd (getById domain id) w) = fst (run rnd (getById domain id) w0).
Proof.
  intros Hsteps Hd. apply pool_inv_steps in Hsteps.
  destruct Hsteps as (_ & _ & (new & Hnew) & _). cbn [fst] in Hnew.
  assert (Hf : findOne (str id) (urls w) = Some d)
    by (rewrite Hnew, findOne_app, Hd; reflexivity).
  split; [exact Hf|]. rewrite !run_getById, Hf, Hd. reflexivity.
Qed.

(** X12: in any interleaving, from a collection without two documents of the
    same key, no handler reports as created a document whose key was in the
    collection when the requests started. *)
Theorem created_key_was_not_stored
    (reqs : list (nat * obj)) (w0 w : world) (ps : pool)
    (i : nat) (p : prog response) (d : doc) :
  NoDup (map emojis (urls w0)) ->
  steps rnd (w0, handlers yup_url port domain reqs) (w, ps) ->
  nth_error ps i = Some p -> created_by p = Some d ->
  ~ In (emojis d) (map emojis (urls w0)) /\ In d (urls w).
Proof.
  intros Hnd Hsteps Hp Hc. apply pool_inv_steps in Hsteps.
  destruct Hsteps as (_ & Hperm & _ & _ & Hnodup). cbn [fst snd] in *.
  specialize (Hnodup Hnd).
  pose proof (created_in ps i p d Hp Hc) as Hin.
  split.
  - assert (Hp' : Permutation (map emojis (urls w))
                    (map emojis (urls w0) ++ map emojis (created ps)))
      by (rewrite <- map_app; apply Permutation_map; exact Hperm).
    apply (Permutation_NoDup Hp') in Hnodup.
    intros Hold. revert Hnodup Hold. generalize (map emojis (urls w0)) as l0.
    induction l0 as [|k l0 IHl]; intros Hnodup Hold; [contradiction|].
    cbn [app] in Hnodup. inversion Hnodup as [|? ? Hnotin Hrest]; subst.
    destruct Hold as [->|Hold].
    + apply Hnotin. apply in_or_app. right. apply in_map. exact Hin.
    + apply (IHl Hrest Hold).
  - apply (Permutation_in d (Permutation_sym Hperm)).
    apply in_or_app. right. exact Hin.
Qed.

(** X13: the stored keys are ASCII.  In any interleaving, from a collection
    of canonical documents, every stored document whose slug is a string of
    code units has for key the encoding of that slug, a string of basic
    code points, not empty unless the slug is. *)
Theorem stored_keys_are_basic
    (reqs : list (nat * obj)) (w0 w : world) (ps : pool)
    (d : doc) (s : jsstring) :
  Forall canonical (urls w0) ->
  steps rnd (w0, handlers yup_url port domain reqs) (w, ps) ->
  In d (urls w) -> raw d = str s -> code_units s ->
  exists key, emojis d = str key
    /\ punycode.encode s = inr key
    /\ Forall (fun c => 0 <= c < 128) key
    /\ (s <> [] -> key <> []).
Proof.
  intros Hc Hsteps Hd Hs Hcu. apply pool_inv_steps in Hsteps.
  destruct Hsteps as (_ & _ & _ & Hcanon & _). cbn [fst] in Hcanon.
  specialize (Hcanon Hc). rewrite Forall_forall in Hcanon.
  destruct (Hcanon d Hd) as (s' & key & Hs' & Hk & He).
  assert (s' = s) by congruence. subst s'.
  exists key. split; [exact He|]. split; [exact Hk|]. split.
  - apply (punycode_facts.encode_output_basic s key Hcu Hk).
  - intros Hne. apply (punycode_facts.encode_nonempty s key Hcu Hne Hk).
Qed.

(** *** White space around the target *)

Lemma trimStart_idem (s : jsstring) : trimStart (trimStart s) = trimStart s.
Proof.
  induction s as [|c s IH]; cbn [trimStart]; [reflexivity|].
  destruct (is_whitespace c) eqn:E; [exact IH|].
  cbn [trimStart]. rewrite E. reflexivity.
Qed.

Lemma trimStart_split (s : jsstring) : exists ws, s = ws ++ trimStart s.
Proof.
  induction s as [|c s (ws & IH)]; cbn [trimStart]; [exists []; reflexivity|].
  destruct (is_whitespace c).
  - exists (c :: ws). cbn [app]. rewrite <- IH. reflexivity.
  - exists []. reflexivity.
Qed.

Lemma trimStart_length (s : jsstring) : (length (trimStart s) <= length s)%nat.
Proof.
  induction s as [|c s IH]; cbn [trimStart length]; [lia|].
  destruct (is_whitespace c); cbn [length]; lia.
Qed.

Lemma trimStart_prefix (p q : jsstring) :
  trimStart (p ++ q) = p ++ q -> trimStart p = p.
Proof.
  destruct p as [|c p]; [reflexivity|]. cbn [app trimStart].
  destruct (is_whitespace c); [|reflexivity].
  intros H. pose proof (trimStart_length (p ++ q)) as Hl.
  rewrite H in Hl. cbn [length] in Hl. lia.
Qed.

Lemma trim_idem (s : jsstring) : trim (trim s) = trim s.
Proof.
  unfold trim.
  destruct (trimStart_split (rev (trimStart s))) as (ws & Hws).
  set (b := trimStart (rev (trimStart s))) in *.
  assert (Ha : trimStart s = rev b ++ rev ws).
  { rewrite <- rev_app_distr, <- Hws, rev_involutive. reflexivity. }
  assert (Hb : trimStart (rev b) = rev b).
  { apply (trimStart_prefix (rev b) (rev ws)). rewrite <- Ha.
    apply trimStart_idem. }
  rewrite Hb, rev_involutive. unfold b. rewrite trimStart_idem. reflexivity.
Qed.

(** X14: the validation of the target does not see the white space around
    it: trimming is idempotent, and a target is accepted, or refused with
    the same error, exactly as its trimmed form is. *)
Theorem target_validation_ignores_padding (s : jsstring) :
  trim (trim s) = trim s
  /\ schema_url yup_url (str s) = schema_url yup_url (str (trim s)).
Proof.
  split; [apply trim_idem|].
  unfold schema_url. cbn [ToString]. rewrite trim_idem. reflexivity.
Qed.

End Properties.

(** ** The theorems at concrete requests *)

(** The last two of three documents. *)
Lemma last_n_most_recent_first_witness :
  0 < 2
  /\ run sample_rnd (getLast 2) (mkWorld [doc_cats; doc_dragons; doc_cat_dog_frog] 0)
     = (Returned (json (JsonRecords [doc_cat_dog_frog; doc_dragons])),
        mkWorld [doc_cats; doc_dragons; doc_cat_dog_frog] 0).
Proof.
  assert (H : 0 < 2) by lia.
  split; [exact H|].
  exact (proj1 (last_n_most_recent_first sample_rnd
                  (mkWorld [doc_cats; doc_dragons; doc_cat_dog_frog] 0) 2 H)).
Defined.

(** The key of the first candidate, five cats, is in use; the second
    candidate, five dragons, is stored. *)
Lemma auto_generation_finds_unused_key_witness :
  run sample_rnd (postNewURL sample_url 4000 localhost 2 body_no_slug)
      (mkWorld [doc_cats] 0)
  = (Returned (json (JsonCreated 4000 localhost doc_dragons)),
     mkWorld [doc_cats; doc_dragons] 10).
Proof.
  refine (proj1 (proj2 (auto_generation_finds_unused_key sample_rnd sample_url
            4000 localhost 2 1 body_no_slug (mkWorld [doc_cats] 0)
            (fun i => match i with
                      | O => u16 "5o8haaaa"
                      | S _ => u16 "6o8haaaa"
                      end) _ _ _ _ _ _ _ _))).
  - reflexivity.
  - vm_compute. reflexivity.
  - intros i Hi. destruct i as [|[|i]]; [vm_compute; reflexivity ..|lia].
  - intros i Hi. destruct i as [|i]; [vm_compute; discriminate|lia].
  - vm_compute. reflexivity.
  - change (candidate sample_rnd (draws (mkWorld [doc_cats] 0) + 5 * 1))
      with five_dragons.
    unfold code_units, five_dragons. repeat constructor; lia.
  - change (candidate sample_rnd (draws (mkWorld [doc_cats] 0) + 5 * 1))
      with five_dragons.
    unfold five_dragons. intros H. inversion H; subst. lia.
  - lia.
Defined.

(** The target [not-a-url]. *)
Lemma invalid_target_answered_500_witness :
  schema_url sample_url (get "url" body_not_a_url)
    = Some (ValidationError "url must be a valid URL")
  /\ postNewURL sample_url 4000 localhost 0 body_not_a_url
     = Ret (mkResponse 500 (JsonError "url must be a valid URL" body_not_a_url)).
Proof.
  assert (H : schema_url sample_url (get "url" body_not_a_url)
              = Some (ValidationError "url must be a valid URL"))
    by (vm_compute; reflexivity).
  split; [exact H|].
  exact (proj2 (proj2 (invalid_target_answered_500 sample_rnd sample_url 4000
                         localhost 0 body_not_a_url _ H))
           (or_introl eq_refl)).
Defined.

(** The slug 🐱🐶🐸 a second time. *)
Lemma supplied_slug_rejections_witness :
  run sample_rnd (postNewURL sample_url 4000 localhost 0 body_cat_dog_frog)
      (mkWorld [doc_cat_dog_frog] 0)
  = (Returned (mkResponse 444 (JsonError existsErrorMessage body_cat_dog_frog)),
     mkWorld [doc_cat_dog_frog] 0).
Proof.
  refine (proj1 (supplied_slug_rejections sample_rnd sample_url 4000 localhost 0
            body_cat_dog_frog (mkWorld [doc_cat_dog_frog] 0)
            cat_dog_frog (u16 "5o8hkag") _ _ _ _ _) _).
  - reflexivity.
  - discriminate.
  - unfold code_units, cat_dog_frog. repeat constructor; lia.
  - vm_compute. reflexivity.
  - vm_compute. reflexivity.
  - vm_compute. discriminate.
Defined.

(** Two requests for the slug 🐱🐶🐸, their operations alternating. *)
Lemma unique_keys_under_races_witness :
  NoDup (map emojis (urls empty_world))
  /\ steps sample_rnd race_start (fst race_end, snd race_end)
  /\ NoDup (map emojis (urls (fst race_end))).
Proof.
  assert (H : NoDup (map emojis (urls empty_world))) by constructor.
  assert (Hsteps : steps sample_rnd race_start (fst race_end, snd race_end)).
  { rewrite <- surjective_pairing. apply exec_steps. }
  split; [exact H|]. split; [exact Hsteps|].
  exact (proj1 (unique_keys_under_races sample_rnd sample_url 4000 localhost
                  two_requests empty_world _ _ H Hsteps)).
Defined.

(** The same two requests when the first has inserted and the second is
    about to. *)
Lemma rejected_insert_answered_500_witness :
  exists d k,
    nth_error (snd race_first_inserted) 1 = Some (Insert d k)
    /\ In (emojis d) (map emojis (urls (fst race_first_inserted)))
    /\ op_step sample_rnd (Insert d k) (fst race_first_inserted)
       = Some (Ret (mkResponse 500
                      (JsonError (err_message E11000) body_cat_dog_frog)),
               fst race_first_inserted).
Proof.
  assert (Hnth : exists d k,
            nth_error (snd race_first_inserted) 1 = Some (Insert d k)
            /\ In (emojis d) (map emojis (urls (fst race_first_inserted)))).
  { destruct (nth_error (snd race_first_inserted) 1)
      as [[a|e| |k|key k|k|d k]|] eqn:E;
      try (vm_compute in E; discriminate E).
    exists d, k. split; [reflexivity|].
    vm_compute in E. injection E as Hd _. subst d.
    vm_compute. left. reflexivity. }
  destruct Hnth as (d & k & Hnth & Hin).
  exists d, k. split; [exact Hnth|]. split; [exact Hin|].
  assert (Hsteps : steps sample_rnd race_start
                     (fst race_first_inserted, snd race_first_inserted)).
  { rewrite <- surjective_pairing. apply exec_steps. }
  destruct (rejected_insert_answered_500 sample_rnd sample_url 4000 localhost
              two_requests empty_world _ _ 1 d k Hsteps Hnth Hin)
    as (r & Hr & Hstep).
  injection Hr as <-. exact Hstep.
Defined.

(** The same two requests, to their end. *)
Lemma persisted_key_is_encoding_of_raw_witness :
  Forall canonical (urls empty_world)
  /\ steps sample_rnd race_start (fst race_end, snd race_end)
  /\ Forall canonical (urls (fst race_end)).
Proof.
  assert (H : Forall canonical (urls empty_world)) by constructor.
  assert (Hsteps : steps sample_rnd race_start (fst race_end, snd race_end)).
  { rewrite <- surjective_pairing. apply exec_steps. }
  split; [exact H|]. split; [exact Hsteps|].
  exact (proj1 (persisted_key_is_encoding_of_raw sample_rnd sample_url 4000
                  localhost two_requests empty_world _ _ H Hsteps)).
Defined.

(** The slug [!🐱] with the validator of the examples. *)
Lemma slug_pattern_not_enforced_witness :
  sample_url (u16 "https://example.com") = true
  /\ run sample_rnd (postNewURL sample_url 4000 localhost 0 body_bang_cat)
         empty_world
     = (Returned (json (JsonCreated 4000 localhost
                          {| emojis := str (u16 "!-232s");
                             url := example_com;
                             raw := str (33 :: [0xD83D; 0xDC31]) |})),
        mkWorld [{| emojis := str (u16 "!-232s");
                    url := example_com;
                    raw := str (33 :: [0xD83D; 0xDC31]) |}] 0).
Proof.
  assert (H : sample_url (u16 "https://example.com") = true)
    by (vm_compute; reflexivity).
  split; [exact H|].
  exact (proj1 (slug_pattern_not_enforced sample_rnd sample_url 4000 localhost
                  0 H)).
Defined.

(** ** Where the code departs from the specification *)

(** C2 as specified fails: two requests for the slug 🐱🐶🐸 both pass the
    check of [keyExists] before either inserts; the second insert is
    rejected, and its handler answers 500 with the message of the driver,
    not 444 with the "already exists" message. *)
Lemma lost_race_not_already_exists :
  urls (fst race_end) = [doc_cat_dog_frog]
  /\ nth_error (snd race_end) 0
     = Some (Ret (json (JsonCreated 4000 localhost doc_cat_dog_frog)))
  /\ nth_error (snd race_end) 1
     = Some (Ret (mkResponse 500
                    (JsonError (err_message E11000) body_cat_dog_frog)))
  /\ 500 <> 444
  /\ err_message E11000 <> existsErrorMessage.
Proof.
  repeat split; try (vm_compute; reflexivity); discriminate.
Qed.

(** C3 as specified fails: the slug [abc] is its own encoding without the
    last character, no stored document has its key, and the request is
    refused with the "at least 1 emoji" error, status 555, not with the
    "already exists" error, status 444.  And a slug whose key is stored is
    not refused with that error either when the target is not a URL: the
    validation comes first. *)
Lemma already_canonical_not_already_exists :
  punycode.encode (u16 "abc") = inr (u16 "abc-")
  /\ removelast (u16 "abc-") = u16 "abc"
  /\ run sample_rnd (postNewURL sample_url 4000 localhost 0 body_abc) empty_world
     = (Returned (mkResponse 555 (JsonError emojiErrorMessage body_abc)),
        empty_world)
  /\ 555 <> 444
  /\ emojiErrorMessage <> existsErrorMessage
  /\ run sample_rnd
       (postNewURL sample_url 4000 localhost 0 body_cat_dog_frog_not_a_url)
       (mkWorld [doc_cat_dog_frog] 0)
     = (Returned (mkResponse 500
                    (JsonError "url must be a valid URL"
                       body_cat_dog_frog_not_a_url)),
        mkWorld [doc_cat_dog_frog] 0).
Proof.
  repeat split; try (vm_compute; reflexivity); discriminate.
Qed.

(** C5 as specified fails: for the target [not-a-url] the answer has status
    500, which is not a client-error status.  And with a slug on which the
    encoder overflows, the [RangeError] is thrown at line 129, before the
    [try]: the handler ends without an answer and without a
    [ValidationError]. *)
Lemma invalid_target_not_client_error :
  run sample_rnd (postNewURL sample_url 4000 localhost 0 body_not_a_url)
      empty_world
  = (Returned (mkResponse 500
                 (JsonError "url must be a valid URL" body_not_a_url)),
     empty_world)
  /\ ~ (400 <= 500 <= 499)
  /\ run sample_rnd
       (postNewURL sample_url 4000 localhost 0 body_overflowing_not_a_url)
       empty_world
     = (Thrown punycode.RangeError_overflow, empty_world).
Proof.
  repeat split; try (vm_compute; reflexivity). lia.
Qed.

(** ** The further properties at concrete requests *)

(** The index [-1] on three documents. *)
Lemma last_of_nonpositive_index_witness :
  -1 <= 0
  /\ run sample_rnd (getLast (-1))
       (mkWorld [doc_cats; doc_dragons; doc_cat_dog_frog] 0)
     = (Returned (json (JsonRecords [doc_cat_dog_frog; doc_dragons])),
        mkWorld [doc_cats; doc_dragons; doc_cat_dog_frog] 0).
Proof.
  assert (H : -1 <= 0) by lia.
  split; [exact H|].
  exact (proj1 (last_of_nonpositive_index sample_rnd
                  (mkWorld [doc_cats; doc_dragons; doc_cat_dog_frog] 0) (-1) H)).
Defined.

(** The five cats are stored: the generator returns the five dragons. *)
Lemma generated_slug_is_unused_witness :
  run sample_rnd (generateRandomEmojis 2) (mkWorld [doc_cats] 0)
    = (Returned five_dragons, mkWorld [doc_cats] 10)
  /\ exists j key,
       (j < 2)%nat
       /\ five_dragons = candidate sample_rnd (0 + 5 * j)
       /\ 10%nat = (0 + 5 * (j + 1))%nat
       /\ punycode.encode five_dragons = inr key
       /\ ~ In (str key) (map emojis [doc_cats]).
Proof.
  assert (H : run sample_rnd (generateRandomEmojis 2) (mkWorld [doc_cats] 0)
              = (Returned five_dragons, mkWorld [doc_cats] 10))
    by (vm_compute; reflexivity).
  split; [exact H|].
  exact (proj2 (generated_slug_is_unused sample_rnd 2 (mkWorld [doc_cats] 0)
                  (mkWorld [doc_cats] 10) five_dragons H)).
Defined.

(** Every draw is the cat face and the five cats are stored. *)
Lemma generator_spins_while_keys_are_taken_witness :
  run cats_rnd (postNewURL sample_url 4000 localhost 3 body_no_slug)
      (mkWorld [doc_cats] 0)
  = (Spinning, mkWorld [doc_cats] 15).
Proof.
  refine (proj2 (generator_spins_while_keys_are_taken cats_rnd sample_url 4000
                   localhost 3 body_no_slug (mkWorld [doc_cats] 0)
                   (fun _ => u16 "5o8haaaa") _ _ _)).
  - reflexivity.
  - vm_compute. reflexivity.
  - intros i Hi. split; [vm_compute; reflexivity|vm_compute; discriminate].
Defined.

(** The slug of two thousand letters and the last code point. *)
Lemma overflow_of_supplied_slug_is_unhandled_witness :
  punycode.encode overflowing_slug = inl punycode.RangeError_overflow
  /\ run sample_rnd (postNewURL sample_url 4000 localhost 0 body_overflowing)
         empty_world
     = (Thrown punycode.RangeError_overflow, empty_world).
Proof.
  assert (H : punycode.encode overflowing_slug = inl punycode.RangeError_overflow)
    by (vm_compute; reflexivity).
  split; [exact H|].
  refine (proj2 (overflow_of_supplied_slug_is_unhandled sample_rnd sample_url
                   4000 localhost 0 body_overflowing empty_world
                   overflowing_slug punycode.RangeError_overflow _ _ H)).
  - reflexivity.
  - vm_compute. discriminate.
Defined.

(** Every draw is that slug. *)
Lemma overflow_of_candidate_answered_500_witness :
  run overflowing_rnd (postNewURL sample_url 4000 localhost 1 body_no_slug)
      empty_world
  = (Returned (mkResponse 500
                 (JsonError "Overflow: input needs wider integers to process"
                    body_no_slug)),
     mkWorld [] 5).
Proof.
  refine (overflow_of_candidate_answered_500 overflowing_rnd sample_url 4000
            localhost 0 body_no_slug empty_world punycode.RangeError_overflow
            _ _ _).
  - reflexivity.
  - vm_compute. reflexivity.
  - vm_compute. reflexivity.
Defined.

Lemma cat_dog_frog_code_units : code_units cat_dog_frog.
Proof. unfold code_units, cat_dog_frog. repeat constructor; lia. Qed.

Lemma cat_dog_frog_not_basic : ~ Forall (fun c => 0 <= c < 128) cat_dog_frog.
Proof. unfold cat_dog_frog. intros H. inversion H; subst. lia. Qed.

(** The slug 🐱🐶🐸 with a target between blanks: the target is stored with
    its blanks. *)
Lemma supplied_slug_stored_then_resolved_witness :
  run sample_rnd (postNewURL sample_url 4000 localhost 0 body_padded_target)
      empty_world
  = (Returned (json (JsonCreated 4000 localhost
                       {| emojis := str (u16 "5o8hkag");
                          url := str padded_example_com;
                          raw := str cat_dog_frog |})),
     mkWorld [{| emojis := str (u16 "5o8hkag");
                 url := str padded_example_com;
                 raw := str cat_dog_frog |}] 0).
Proof.
  refine (proj1 (supplied_slug_stored_then_resolved sample_rnd sample_url 4000
                   localhost 0 body_padded_target empty_world cat_dog_frog
                   (u16 "5o8hkag") _ cat_dog_frog_code_units
                   cat_dog_frog_not_basic _ _ _)).
  - reflexivity.
  - vm_compute. reflexivity.
  - vm_compute. reflexivity.
  - reflexivity.
Defined.

(** The slug 🐱🐶🐸 for one target, then for another. *)
Lemma repeated_slug_refused_witness :
  run sample_rnd (postNewURL sample_url 4000 localhost 0 body_other_target)
      (mkWorld [doc_cat_dog_frog] 0)
  = (Returned (mkResponse 444 (JsonError existsErrorMessage body_other_target)),
     mkWorld [doc_cat_dog_frog] 0).
Proof.
  refine (proj1 (repeated_slug_refused sample_rnd sample_url 4000 localhost 0 0
                   body_cat_dog_frog body_other_target empty_world cat_dog_frog
                   (u16 "5o8hkag") _ cat_dog_frog_code_units
                   cat_dog_frog_not_basic _ _ _ _ _)).
  - reflexivity.
  - vm_compute. reflexivity.
  - vm_compute. reflexivity.
  - reflexivity.
  - reflexivity.
  - vm_compute. reflexivity.
Defined.

(** The request that lost the race. *)
Lemma allocation_answers_200_444_555_500_witness :
  steps sample_rnd race_start (fst race_end, snd race_end)
  /\ allowed_answer 4000 localhost body_cat_dog_frog
       (mkResponse 500 (JsonError (err_message E11000) body_cat_dog_frog)).
Proof.
  assert (Hsteps : steps sample_rnd race_start (fst race_end, snd race_end)).
  { rewrite <- surjective_pairing. apply exec_steps. }
  split; [exact Hsteps|].
  refine (allocation_answers_200_444_555_500 sample_rnd sample_url 4000
            localhost two_requests empty_world _ _ 1 (0%nat, body_cat_dog_frog)
            _ Hsteps _ _).
  - reflexivity.
  - vm_compute. reflexivity.
Defined.

(** The five cats resolve as before once the five dragons are stored. *)
Lemma resolution_stable_under_allocations_witness :
  steps sample_rnd generation_start (fst generation_end, snd generation_end)
  /\ urls (fst generation_end) = [doc_cats; doc_dragons]
  /\ findOne (str (u16 "5o8haaaa")) (urls (fst generation_end)) = Some doc_cats.
Proof.
  assert (Hsteps : steps sample_rnd generation_start
                     (fst generation_end, snd generation_end)).
  { rewrite <- surjective_pairing. apply exec_steps. }
  split; [exact Hsteps|]. split; [vm_compute; reflexivity|].
  refine (proj1 (resolution_stable_under_allocations sample_rnd sample_url 4000
                   localhost [(2%nat, body_no_slug)] (mkWorld [doc_cats] 0)
                   _ _ (u16 "5o8haaaa") doc_cats Hsteps _)).
  vm_compute. reflexivity.
Defined.

(** The five dragons were not stored when the request started. *)
Lemma created_key_was_not_stored_witness :
  ~ In (emojis doc_dragons) (map emojis [doc_cats])
  /\ In doc_dragons (urls (fst generation_end)).
Proof.
  assert (Hsteps : steps sample_rnd generation_start
                     (fst generation_end, snd generation_end)).
  { rewrite <- surjective_pairing. apply exec_steps. }
  assert (Hnd : NoDup (map emojis (urls (mkWorld [doc_cats] 0))))
    by (repeat constructor; intros []).
  refine (created_key_was_not_stored sample_rnd sample_url 4000 localhost
            [(2%nat, body_no_slug)] (mkWorld [doc_cats] 0) _ _ 0
            (Ret (json (JsonCreated 4000 localhost doc_dragons))) doc_dragons
            Hnd Hsteps _ _).
  - vm_compute. reflexivity.
  - reflexivity.
Defined.

(** The key of 🐱🐶🐸 after the race. *)
Lemma stored_keys_are_basic_witness :
  exists key, emojis doc_cat_dog_frog = str key
    /\ punycode.encode cat_dog_frog = inr key
    /\ Forall (fun c => 0 <= c < 128) key
    /\ (cat_dog_frog <> [] -> key <> []).
Proof.
  assert (Hsteps : steps sample_rnd race_start (fst race_end, snd race_end)).
  { rewrite <- surjective_pairing. apply exec_steps. }
  refine (stored_keys_are_basic sample_rnd sample_url 4000 localhost
            two_requests empty_world _ _ doc_cat_dog_frog cat_dog_frog
            _ Hsteps _ _ cat_dog_frog_code_units).
  - constructor.
  - vm_compute. left. reflexivity.
  - reflexivity.
Defined.

(** The slug 🐱🐶🐸 when the five cats and the five dragons are stored. *)
Lemma created_document_listed_first_witness :
  run sample_rnd (postNewURL sample_url 4000 localhost 0 body_cat_dog_frog)
      (mkWorld [doc_cats; doc_dragons] 0)
    = (Returned (json (JsonCreated 4000 localhost doc_cat_dog_frog)),
       mkWorld [doc_cats; doc_dragons; doc_cat_dog_frog] 0)
  /\ run sample_rnd getAll (mkWorld [doc_cats; doc_dragons; doc_cat_dog_frog] 0)
     = (Returned (json (JsonRecords [doc_cat_dog_frog; doc_dragons; doc_cats])),
        mkWorld [doc_cats; doc_dragons; doc_cat_dog_frog] 0).
Proof.
  assert (H : run sample_rnd
                (postNewURL sample_url 4000 localhost 0 body_cat_dog_frog)
                (mkWorld [doc_cats; doc_dragons] 0)
              = (Returned (json (JsonCreated 4000 localhost doc_cat_dog_frog)),
                 mkWorld [doc_cats; doc_dragons; doc_cat_dog_frog] 0))
    by (vm_compute; reflexivity).
  split; [exact H|].
  exact (proj1 (created_document_listed_first sample_rnd sample_url 4000
                  localhost 0 body_cat_dog_frog _ _ 200 4000 localhost
                  doc_cat_dog_frog H)).
Defined.
